(** * WaterViscosityIAPWS: viscosity of water by the IAPWS formulation

    A shallow embedding of [FEM/Material/Fluid/Viscosity/WaterViscosityIAPWS.cpp]
    and the proofs of its stated properties.  The code is embedded in three
    readings, each of them statement by statement.

    Exact arithmetic.  A C++ [double] is an exact real number or the single
    value [NonFin], which stands for the non-finite values.  The finite
    operations are those of [R]: there is no rounding, no overflow and no
    underflow.  A division by zero and the square root of a negative number
    give [NonFin], and [NonFin] is absorbing.  This reading says what the
    expressions of the code mean as formulas.  It agrees with the doubles
    that the code returns, up to rounding, where every intermediate value is
    a finite double of moderate size; what is stated in it is restricted to
    such ranges of [T] and [rho], or says no more than that a result is not
    finite where a square root of a negative number or a division by an
    exact zero makes it so.

    Binary64 arithmetic ([B64]).  A [double] is an IEEE 754 binary64 number
    of the kernel, with correctly rounded operations, signed zeros,
    infinities and NaN; [std::exp] is a parameter.  This reading gives the
    very doubles that the code returns.  It is used for what holds of every
    double, at the special values, and at the doubles where a statement
    fails through cancellation, overflow or rounding.

    Explicit memory ([Mem]).  The binary64 reading once more, with the two
    tables and the live vectors in a memory that is passed along, to state
    what a call leaves behind.

    Memory accesses.  [std::vector<double>] and the two constant tables are
    lists; every indexed read and write is checked, and an access out of
    range is a fault ([None]) of the computation monad. *)

From Stdlib Require Import Reals Lra Lia List Arith.
From Stdlib Require Floats Uint63 ZArith.
Import ListNotations.

Set Warnings "-inexact-float".

(** ** The type of doubles *)

Inductive double : Type :=
| Fin (r : R)
| NonFin.

Declare Scope double_scope.
Delimit Scope double_scope with D.
Bind Scope double_scope with double.

Module Double.

Definition add (x y : double) : double :=
  match x, y with
  | Fin a, Fin b => Fin (a + b)
  | _, _ => NonFin
  end.

Definition sub (x y : double) : double :=
  match x, y with
  | Fin a, Fin b => Fin (a - b)
  | _, _ => NonFin
  end.

Definition mul (x y : double) : double :=
  match x, y with
  | Fin a, Fin b => Fin (a * b)
  | _, _ => NonFin
  end.

(** [a / 0] is an infinity or (for [0 / 0]) a NaN. *)
Definition div (x y : double) : double :=
  match x, y with
  | Fin a, Fin b => if Req_dec_T b 0 then NonFin else Fin (a / b)
  | _, _ => NonFin
  end.

(** [std::sqrt] of a negative number is a NaN. *)
Definition sqrt (x : double) : double :=
  match x with
  | Fin a => if Rlt_dec a 0 then NonFin else Fin (R_sqrt.sqrt a)
  | NonFin => NonFin
  end.

(** [std::exp]. *)
Definition exp (x : double) : double :=
  match x with
  | Fin a => Fin (Rtrigo_def.exp a)
  | NonFin => NonFin
  end.

(** [static_cast<double>(i)] for a loop counter [i]. *)
Definition of_int (i : nat) : double := Fin (INR i).

(** Integer power by repeated multiplication; [x^0 = 1] also for a
    non-finite [x], as for [std::pow]. *)
Fixpoint pow (x : double) (n : nat) : double :=
  match n with
  | O => Fin 1
  | S n' => mul x (pow x n')
  end.


End Double.

Arguments Double.add !x !y : simpl nomatch.
Arguments Double.sub !x !y : simpl nomatch.
Arguments Double.mul !x !y : simpl nomatch.
Arguments Double.div !x !y : simpl nomatch.
Arguments Double.sqrt !x : simpl nomatch.
Arguments Double.exp !x : simpl nomatch.

Infix "+" := Double.add : double_scope.
Infix "-" := Double.sub : double_scope.
Infix "*" := Double.mul : double_scope.
Infix "/" := Double.div : double_scope.

(** ** The computation monad: checked memory accesses *)

Definition M (A : Type) : Type := option A.

Definition ret {A : Type} (a : A) : M A := Some a.

Definition bind {A B : Type} (c : M A) (k : A -> M B) : M B :=
  match c with
  | Some a => k a
  | None => None
  end.

Notation "x <- c ;; k" := (bind c (fun x => k))
  (at level 61, c at next level, right associativity).
Notation "' p <- c ;; k" := (bind c (fun x => let 'p := x in k))
  (at level 61, p pattern, c at next level, right associativity).

(** [v[i]] as an rvalue. *)
Definition vec_get {A : Type} (v : list A) (i : nat) : M A := nth_error v i.

(** [v[i] = x]. *)
Fixpoint vec_set {A : Type} (v : list A) (i : nat) (x : A) : M (list A) :=
  match v, i with
  | [], _ => None
  | _ :: v', O => Some (x :: v')
  | y :: v', S i' =>
      match vec_set v' i' x with
      | Some w => Some (y :: w)
      | None => None
      end
  end.

(** [std::vector<double> v(n)]: [n] value-initialised elements. *)
Definition vec_new (n : nat) : list double := repeat (Fin 0) n.

(** [for (int i = lo; i < hi; i++) body], the mutated locals as the loop
    state [s]. *)
Fixpoint for_loop {S : Type} (i n : nat) (body : nat -> S -> M S) (s : S) : M S :=
  match n with
  | O => ret s
  | Datatypes.S n' => s' <- body i s ;; for_loop (Datatypes.S i) n' body s'
  end.

Definition for_range {S : Type} (lo hi : nat) (body : nat -> S -> M S) (s : S) : M S :=
  for_loop lo (hi - lo) body s.

(** ** The program *)

Open Scope R_scope.

(** The decimal constants of the two tables, as written in the source. *)
Definition Hi_tab : list R :=
  [1.67752; 2.20462; 0.6366564; -0.241605].

Definition Hij_tab : list (list R) :=
  [ [0.520094; 0.222531; -0.281378; 0.161913; -0.0325372; 0; 0];
    [0.0850895; 0.999115; -0.906851; 0.257399; 0; 0; 0];
    [-1.08374; 1.88797; -0.772479; 0; 0; 0; 0];
    [-0.289555; 1.26613; -0.489837; 0; 0.0698452; 0; -0.00435673];
    [0; 0; -0.25704; 0; 0; 0.00872102; 0];
    [0; 0.120573; 0; 0; 0; 0; -0.000593264] ].

(** [static const double Hi[4]] and [static const double Hij[6][7]]. *)
Definition Hi : list double := map Fin Hi_tab.

Definition Hij : list (list double) := map (map Fin) Hij_tab.

(** [Hij[i][j]]. *)
Definition Hij_get (i j : nat) : M double :=
  row <- vec_get Hij i ;; vec_get row j.

Definition _ref_T : double := Fin 647.096.
Definition _ref_rho : double := Fin 322.0.
Definition _ref_mu : double := Fin 1.0e-6.

Definition computeBarMu0Factor (barT : double) : M double :=
  ' (sum_val, barT_i) <-
    for_range 0 4
      (fun i '(sum_val, barT_i) =>
         h <- vec_get Hi i ;;
         ret (sum_val + h / barT_i, barT_i * barT)%D)
      (Fin 0, Fin 1) ;;
  ret sum_val.

Definition computeSeriesFactorTForMu1 (barT : double) : M (list double) :=
  let series_factorT := vec_new 6 in
  series_factorT <- vec_set series_factorT 0 (Fin 1) ;;
  let barT_fac := (Fin 1 / barT - Fin 1.0)%D in
  for_range 1 6
    (fun i series_factorT =>
       prev <- vec_get series_factorT (i - 1) ;;
       vec_set series_factorT i (prev * barT_fac)%D)
    series_factorT.

Definition computeSeriesFactorRhoForMu1 (bar_rho : double) : M (list double) :=
  let series_factorRho := vec_new 7 in
  series_factorRho <- vec_set series_factorRho 0 (Fin 1) ;;
  for_range 1 7
    (fun i series_factorRho =>
       prev <- vec_get series_factorRho (i - 1) ;;
       vec_set series_factorRho i (prev * (bar_rho - Fin 1.0))%D)
    series_factorRho.

Definition computeBarMu1Factor (series_factorT series_factorRho : list double)
  : M double :=
  for_range 0 6
    (fun i sum_val =>
       sum_val_j <-
         for_range 0 7
           (fun j sum_val_j =>
              h <- Hij_get i j ;;
              r <- vec_get series_factorRho j ;;
              ret (sum_val_j + h * r)%D)
           (Fin 0) ;;
       t <- vec_get series_factorT i ;;
       ret (sum_val + t * sum_val_j)%D)
    (Fin 0).

Definition computedBarMu_dbarT (barT bar_rho : double) : M double :=
  mu0_factor <- computeBarMu0Factor barT ;;
  let sqrt_barT := Double.sqrt barT in
  ' (dmu0_factor_dbarT, barT_i) <-
    for_range 1 4
      (fun i '(dmu0_factor_dbarT, barT_i) =>
         h <- vec_get Hi i ;;
         ret (dmu0_factor_dbarT - Double.of_int i * (h / barT_i),
              barT_i * barT)%D)
      (Fin 0.0, (barT * barT)%D) ;;
  let dbar_mu0_dbarT :=
    (Fin 50 / (mu0_factor * sqrt_barT) -
     Fin 100 * sqrt_barT * dmu0_factor_dbarT / (mu0_factor * mu0_factor))%D in
  series_factorT <- computeSeriesFactorTForMu1 barT ;;
  series_factorRho <- computeSeriesFactorRhoForMu1 bar_rho ;;
  dmu1_factor_dbarT <-
    for_range 1 6
      (fun i dmu1_factor_dbarT =>
         sum_val_j <-
           for_range 0 7
             (fun j sum_val_j =>
                h <- Hij_get i j ;;
                r <- vec_get series_factorRho j ;;
                ret (sum_val_j + h * r)%D)
             (Fin 0) ;;
         t <- vec_get series_factorT (i - 1) ;;
         ret (dmu1_factor_dbarT -
              Double.of_int i * t * sum_val_j / (barT * barT))%D)
      (Fin 0.0) ;;
  mu1_factor <- computeBarMu1Factor series_factorT series_factorRho ;;
  let dbar_mu1_dbarT :=
    (bar_rho * Double.exp (bar_rho * mu1_factor) * dmu1_factor_dbarT)%D in
  ret (dbar_mu0_dbarT * Double.exp (bar_rho * mu1_factor) +
       dbar_mu1_dbarT * Fin 100 * sqrt_barT / mu0_factor)%D.

Definition computedBarMu_dbarRho (barT bar_rho : double) : M double :=
  series_factorT <- computeSeriesFactorTForMu1 barT ;;
  series_factorRho <- computeSeriesFactorRhoForMu1 bar_rho ;;
  dmu1_factor_dbar_rho <-
    for_range 0 6
      (fun i dmu1_factor_dbar_rho =>
         sum_val_j <-
           for_range 1 7
             (fun j sum_val_j =>
                h <- Hij_get i j ;;
                r <- vec_get series_factorRho (j - 1) ;;
                ret (sum_val_j + Double.of_int j * h * r)%D)
             (Fin 0) ;;
         t <- vec_get series_factorT i ;;
         ret (dmu1_factor_dbar_rho + t * sum_val_j)%D)
      (Fin 0.0) ;;
  f0 <- computeBarMu0Factor barT ;;
  let mu0 := (Fin 100 * Double.sqrt barT / f0)%D in
  mu1_factor <- computeBarMu1Factor series_factorT series_factorRho ;;
  ret (mu0 * Double.exp (bar_rho * mu1_factor) *
       (mu1_factor + bar_rho * dmu1_factor_dbar_rho))%D.

Definition getValue (T rho : double) : M double :=
  let bar_T := (T / _ref_T)%D in
  let bar_rho := (rho / _ref_rho)%D in
  f0 <- computeBarMu0Factor bar_T ;;
  let mu0 := (Fin 100 * Double.sqrt bar_T / f0)%D in
  series_factorT <- computeSeriesFactorTForMu1 bar_T ;;
  series_factorRho <- computeSeriesFactorRhoForMu1 bar_rho ;;
  mu1_factor <- computeBarMu1Factor series_factorT series_factorRho ;;
  let mu1 := Double.exp (bar_rho * mu1_factor) in
  ret (mu0 * mu1 * _ref_mu)%D.

Definition getdValuedT (T rho : double) : M double :=
  let bar_T := (T / _ref_T)%D in
  let bar_rho := (rho / _ref_rho)%D in
  d <- computedBarMu_dbarT bar_T bar_rho ;;
  ret (_ref_mu * d / _ref_T)%D.

Definition getdValuedRho (T rho : double) : M double :=
  let bar_T := (T / _ref_T)%D in
  let bar_rho := (rho / _ref_rho)%D in
  d <- computedBarMu_dbarRho bar_T bar_rho ;;
  ret (_ref_mu * d / _ref_rho)%D.


(** ** The formulas of the specification

    [Ref] evaluates the closed form of the viscosity in the arithmetic of the
    program (doubles), [Spec] states the formulas of the formulation and of
    its derivatives on real numbers. *)

Module Ref.

(** [H[i]] and [H_ij[i][j]] as the formulas index them. *)
Definition H (i : nat) : double := nth i Hi NonFin.
Definition Hc (i j : nat) : double := nth j (nth i Hij []) NonFin.

(** [dsum f n] is the sum of [f i] for [i = 0..n]. *)
Fixpoint dsum (f : nat -> double) (n : nat) : double :=
  match n with
  | O => f O
  | S n' => (dsum f n' + f (S n'))%D
  end.

Definition f0 (barT : double) : double :=
  dsum (fun i => H i / Double.pow barT i)%D 3.

Definition f1 (barT bar_rho : double) : double :=
  dsum (fun i =>
          Double.pow (Fin 1 / barT - Fin 1) i *
          dsum (fun j => Hc i j * Double.pow (bar_rho - Fin 1) j) 6)%D 5.

Definition viscosity (T rho : double) : double :=
  let barT := (T / Fin 647.096)%D in
  let bar_rho := (rho / Fin 322.0)%D in
  (Fin 100 * Double.sqrt barT / f0 barT *
   Double.exp (bar_rho * f1 barT bar_rho) * Fin 1e-6)%D.

End Ref.

Module Spec.

Definition T_ref : R := 647.096.
Definition rho_ref : R := 322.0.
Definition mu_ref : R := 1e-6.

Definition H (i : nat) : R := nth i Hi_tab 0.
Definition Hc (i j : nat) : R := nth j (nth i Hij_tab []) 0.

(** The series factors. *)
Definition S_T (barT : R) (k : nat) : R := (1 / barT - 1) ^ k.
Definition S_rho (bar_rho : R) (k : nat) : R := (bar_rho - 1) ^ k.

(** Dilute-gas factor and its derivative. *)
Definition f0 (barT : R) : R := sum_f_R0 (fun i => H i / barT ^ i) 3.

Definition mu0 (barT : R) : R := 100 * sqrt barT / f0 barT.

Definition df0 (barT : R) : R :=
  - sum_f 1 3 (fun i => INR i * H i / barT ^ (i + 1)).

Definition dmu0 (barT : R) : R :=
  50 / (f0 barT * sqrt barT) - 100 * sqrt barT * df0 barT / (f0 barT)².

(** Residual factor and its partial derivatives. *)
Definition g (bar_rho : R) (i : nat) : R :=
  sum_f_R0 (fun j => Hc i j * S_rho bar_rho j) 6.

Definition f1 (barT bar_rho : R) : R :=
  sum_f_R0 (fun i => S_T barT i * g bar_rho i) 5.

Definition mu1 (barT bar_rho : R) : R := exp (bar_rho * f1 barT bar_rho).

Definition df1_dT (barT bar_rho : R) : R :=
  - (1 / barT²) *
  sum_f 1 5 (fun i => INR i * S_T barT (i - 1) * g bar_rho i).

Definition df1_drho (barT bar_rho : R) : R :=
  sum_f_R0
    (fun i =>
       S_T barT i *
       sum_f 1 6 (fun j => INR j * Hc i j * S_rho bar_rho (j - 1)))
    5.

(** Combined derivatives with respect to the reduced variables. *)
Definition dmu1_dT (barT bar_rho : R) : R :=
  bar_rho * exp (bar_rho * f1 barT bar_rho) * df1_dT barT bar_rho.

Definition dmu_dT (barT bar_rho : R) : R :=
  dmu0 barT * mu1 barT bar_rho + dmu1_dT barT bar_rho * mu0 barT.

Definition dmu_drho (barT bar_rho : R) : R :=
  mu0 barT * exp (bar_rho * f1 barT bar_rho) *
  (f1 barT bar_rho + bar_rho * df1_drho barT bar_rho).

(** The three entry points. *)
Definition viscosity (T rho : R) : R :=
  mu0 (T / T_ref) * exp (rho / rho_ref * f1 (T / T_ref) (rho / rho_ref)) *
  mu_ref.

Definition d_viscosity_dT (T rho : R) : R :=
  mu_ref * dmu_dT (T / T_ref) (rho / rho_ref) / T_ref.

Definition d_viscosity_dRho (T rho : R) : R :=
  mu_ref * dmu_drho (T / T_ref) (rho / rho_ref) / rho_ref.

End Spec.

Arguments Spec.f0 : simpl never.
Arguments Spec.f1 : simpl never.


(** ** The program in binary64 arithmetic

    The same nine functions, statement by statement, over the IEEE 754
    binary64 numbers of the kernel ([PrimFloat.float]): every [+], [-], [*],
    [/] and [std::sqrt] is one correctly rounded operation (round to nearest,
    ties to even, no fused multiply-add), with the infinities, the signed
    zeros and NaN.  A decimal literal of the source is the nearest double.
    [std::exp] belongs to the C library, not to this repository: it is the
    parameter [exp] of the functions that call it. *)

Module B64.
Import PrimFloat SpecFloat FloatOps.
Local Open Scope float_scope.

(** [static_cast<double>(i)] for a loop counter [i]. *)
Definition of_int (i : nat) : float := of_uint63 (Uint63.of_Z (Z.of_nat i)).

(** [std::vector<double> v(n)]. *)
Definition vec_new (n : nat) : list float := repeat 0 n.

Definition Hi : list float := [1.67752; 2.20462; 0.6366564; -0.241605].

Definition Hij : list (list float) :=
  [ [0.520094; 0.222531; -0.281378; 0.161913; -0.0325372; 0; 0];
    [0.0850895; 0.999115; -0.906851; 0.257399; 0; 0; 0];
    [-1.08374; 1.88797; -0.772479; 0; 0; 0; 0];
    [-0.289555; 1.26613; -0.489837; 0; 0.0698452; 0; -0.00435673];
    [0; 0; -0.25704; 0; 0; 0.00872102; 0];
    [0; 0.120573; 0; 0; 0; 0; -0.000593264] ].

Definition Hij_get (i j : nat) : M float :=
  row <- vec_get Hij i ;; vec_get row j.

Definition _ref_T : float := 647.096.
Definition _ref_rho : float := 322.0.
Definition _ref_mu : float := 1.0e-6.

Definition computeBarMu0Factor (barT : float) : M float :=
  ' (sum_val, barT_i) <-
    for_range 0 4
      (fun i '(sum_val, barT_i) =>
         h <- vec_get Hi i ;;
         ret (sum_val + h / barT_i, barT_i * barT))
      (0, 1) ;;
  ret sum_val.

Definition computeSeriesFactorTForMu1 (barT : float) : M (list float) :=
  let series_factorT := vec_new 6 in
  series_factorT <- vec_set series_factorT 0 1 ;;
  let barT_fac := 1 / barT - 1.0 in
  for_range 1 6
    (fun i series_factorT =>
       prev <- vec_get series_factorT (i - 1) ;;
       vec_set series_factorT i (prev * barT_fac))
    series_factorT.

Definition computeSeriesFactorRhoForMu1 (bar_rho : float) : M (list float) :=
  let series_factorRho := vec_new 7 in
  series_factorRho <- vec_set series_factorRho 0 1 ;;
  for_range 1 7
    (fun i series_factorRho =>
       prev <- vec_get series_factorRho (i - 1) ;;
       vec_set series_factorRho i (prev * (bar_rho - 1.0)))
    series_factorRho.

Definition computeBarMu1Factor (series_factorT series_factorRho : list float)
  : M float :=
  for_range 0 6
    (fun i sum_val =>
       sum_val_j <-
         for_range 0 7
           (fun j sum_val_j =>
              h <- Hij_get i j ;;
              r <- vec_get series_factorRho j ;;
              ret (sum_val_j + h * r))
           0 ;;
       t <- vec_get series_factorT i ;;
       ret (sum_val + t * sum_val_j))
    0.

Definition computedBarMu_dbarT (exp : float -> float) (barT bar_rho : float)
  : M float :=
  mu0_factor <- computeBarMu0Factor barT ;;
  let sqrt_barT := sqrt barT in
  ' (dmu0_factor_dbarT, barT_i) <-
    for_range 1 4
      (fun i '(dmu0_factor_dbarT, barT_i) =>
         h <- vec_get Hi i ;;
         ret (dmu0_factor_dbarT - of_int i * (h / barT_i),
              barT_i * barT))
      (0.0, barT * barT) ;;
  let dbar_mu0_dbarT :=
    50 / (mu0_factor * sqrt_barT) -
    100 * sqrt_barT * dmu0_factor_dbarT / (mu0_factor * mu0_factor) in
  series_factorT <- computeSeriesFactorTForMu1 barT ;;
  series_factorRho <- computeSeriesFactorRhoForMu1 bar_rho ;;
  dmu1_factor_dbarT <-
    for_range 1 6
      (fun i dmu1_factor_dbarT =>
         sum_val_j <-
           for_range 0 7
             (fun j sum_val_j =>
                h <- Hij_get i j ;;
                r <- vec_get series_factorRho j ;;
                ret (sum_val_j + h * r))
             0 ;;
         t <- vec_get series_factorT (i - 1) ;;
         ret (dmu1_factor_dbarT -
              of_int i * t * sum_val_j / (barT * barT)))
      0.0 ;;
  mu1_factor <- computeBarMu1Factor series_factorT series_factorRho ;;
  let dbar_mu1_dbarT :=
    bar_rho * exp (bar_rho * mu1_factor) * dmu1_factor_dbarT in
  ret (dbar_mu0_dbarT * exp (bar_rho * mu1_factor) +
       dbar_mu1_dbarT * 100 * sqrt_barT / mu0_factor).

Definition computedBarMu_dbarRho (exp : float -> float) (barT bar_rho : float)
  : M float :=
  series_factorT <- computeSeriesFactorTForMu1 barT ;;
  series_factorRho <- computeSeriesFactorRhoForMu1 bar_rho ;;
  dmu1_factor_dbar_rho <-
    for_range 0 6
      (fun i dmu1_factor_dbar_rho =>
         sum_val_j <-
           for_range 1 7
             (fun j sum_val_j =>
                h <- Hij_get i j ;;
                r <- vec_get series_factorRho (j - 1) ;;
                ret (sum_val_j + of_int j * h * r))
             0 ;;
         t <- vec_get series_factorT i ;;
         ret (dmu1_factor_dbar_rho + t * sum_val_j))
      0.0 ;;
  f0 <- computeBarMu0Factor barT ;;
  let mu0 := 100 * sqrt barT / f0 in
  mu1_factor <- computeBarMu1Factor series_factorT series_factorRho ;;
  ret (mu0 * exp (bar_rho * mu1_factor) *
       (mu1_factor + bar_rho * dmu1_factor_dbar_rho)).

Definition getValue (exp : float -> float) (T rho : float) : M float :=
  let bar_T := T / _ref_T in
  let bar_rho := rho / _ref_rho in
  f0 <- computeBarMu0Factor bar_T ;;
  let mu0 := 100 * sqrt bar_T / f0 in
  series_factorT <- computeSeriesFactorTForMu1 bar_T ;;
  series_factorRho <- computeSeriesFactorRhoForMu1 bar_rho ;;
  mu1_factor <- computeBarMu1Factor series_factorT series_factorRho ;;
  let mu1 := exp (bar_rho * mu1_factor) in
  ret (mu0 * mu1 * _ref_mu).

Definition getdValuedT (exp : float -> float) (T rho : float) : M float :=
  let bar_T := T / _ref_T in
  let bar_rho := rho / _ref_rho in
  d <- computedBarMu_dbarT exp bar_T bar_rho ;;
  ret (_ref_mu * d / _ref_T).

Definition getdValuedRho (exp : float -> float) (T rho : float) : M float :=
  let bar_T := T / _ref_T in
  let bar_rho := rho / _ref_rho in
  d <- computedBarMu_dbarRho exp bar_T bar_rho ;;
  ret (_ref_mu * d / _ref_rho).

(** A double that is neither an infinity nor a NaN. *)
Definition finite (x : float) : bool :=
  match Prim2SF x with
  | S754_zero _ | S754_finite _ _ _ => true
  | S754_infinity _ | S754_nan => false
  end.

(** What the C standard (Annex F.10.3.1) fixes of [exp] and the proofs
    use: [exp(+-0)] is 1 and a NaN gives a NaN. *)
Definition exp_spec (exp : float -> float) : Prop :=
  exp 0 = 1 /\ exp (-0) = 1 /\ exp nan = nan.

(** One function with these values, the Taylor polynomial of degree 20 by
    Horner's rule; it stands for [std::exp] where a statement is
    instantiated. *)
Definition exp_series (x : float) : float :=
  fold_right (fun k acc => 1 + x / of_int k * acc) 1 (seq 1 20).

(** The double at which the sum computed by [computeBarMu0Factor] is [+0]. *)
Definition T_pole : float := 134.12190397427455.

(** The same number as a real: [4718994974693471 / 2^45]. *)
Definition T_pole_R : R := 4718994974693471 / 35184372088832.

End B64.

(** ** The program on an explicit memory

    The entry points are member functions that may be called any number of
    times in one process.  To state what a call leaves behind, the same code
    is written once more over an explicit memory: the two tables (objects of
    static storage duration) and the [std::vector] objects that are alive,
    in the order of their construction.  A vector is named by its position.
    Its constructor pushes it, [v[i]] reads or writes an element of it, and
    its destructor, which C++ runs at the end of the scope of the reference
    bound to it and in the reverse order of construction, pops it.  The
    arithmetic is that of [B64]; the scalar locals of a function are its
    bound variables, as they do not outlive the call. *)

Module Mem.
Import PrimFloat.
Local Open Scope float_scope.

Record memory : Type := mk_memory {
  static_Hi : list float;
  static_Hij : list (list float);
  vectors : list (list float)
}.

(** A computation reads and writes the memory, or faults. *)
Definition St (A : Type) : Type := memory -> option (A * memory).

Definition retS {A : Type} (a : A) : St A := fun m => Some (a, m).

Definition bindS {A B : Type} (c : St A) (k : A -> St B) : St B :=
  fun m =>
    match c m with
    | Some (a, m') => k a m'
    | None => None
    end.

Notation "x <~ c ;; k" := (bindS c (fun x => k))
  (at level 61, c at next level, right associativity).
Notation "' p <~ c ;; k" := (bindS c (fun x => let 'p := x in k))
  (at level 61, p pattern, c at next level, right associativity).

(** A computation that only returns a value. *)
Definition lift {A : Type} (c : M A) : St A :=
  fun m =>
    match c with
    | Some a => Some (a, m)
    | None => None
    end.

Definition set_vectors (m : memory) (vs : list (list float)) : memory :=
  mk_memory (static_Hi m) (static_Hij m) vs.

(** The memory with one more vector alive. *)
Definition push (m : memory) (v : list float) : memory :=
  set_vectors m (vectors m ++ [v]).

(** [Hi[i]] and [Hij[i][j]]. *)
Definition Hi_load (i : nat) : St float :=
  fun m => lift (vec_get (static_Hi m) i) m.

Definition Hij_load (i j : nat) : St float :=
  fun m => lift (row <- vec_get (static_Hij m) i ;; vec_get row j) m.

(** [std::vector<double> v(n)]: the new vector and its name. *)
Definition vec_alloc (n : nat) : St nat :=
  fun m => Some (length (vectors m), push m (B64.vec_new n)).

(** [v[i]] as an rvalue. *)
Definition vec_load (a i : nat) : St float :=
  fun m => lift (v <- vec_get (vectors m) a ;; vec_get v i) m.

(** [v[i] = x]. *)
Definition vec_store (a i : nat) (x : float) : St unit :=
  fun m =>
    match vec_get (vectors m) a with
    | Some v =>
        match vec_set v i x with
        | Some v' =>
            match vec_set (vectors m) a v' with
            | Some vs => Some (tt, set_vectors m vs)
            | None => None
            end
        | None => None
        end
    | None => None
    end.

(** The destructor of the vector constructed last. *)
Definition vec_free (a : nat) : St unit :=
  fun m =>
    if Nat.eqb (S a) (length (vectors m))
    then Some (tt, set_vectors m (removelast (vectors m)))
    else None.

Fixpoint for_loopS {S : Type} (i n : nat) (body : nat -> S -> St S) (s : S)
  : St S :=
  match n with
  | O => retS s
  | Datatypes.S n' => s' <~ body i s ;; for_loopS (Datatypes.S i) n' body s'
  end.

Definition for_rangeS {S : Type} (lo hi : nat) (body : nat -> S -> St S)
    (s : S) : St S :=
  for_loopS lo (hi - lo) body s.

Definition computeBarMu0Factor (barT : float) : St float :=
  ' (sum_val, barT_i) <~
    for_rangeS 0 4
      (fun i '(sum_val, barT_i) =>
         h <~ Hi_load i ;;
         retS (sum_val + h / barT_i, barT_i * barT))
      (0, 1) ;;
  retS sum_val.

(** The vector is returned by value: it stays alive, and the caller gets
    its name. *)
Definition computeSeriesFactorTForMu1 (barT : float) : St nat :=
  series_factorT <~ vec_alloc 6 ;;
  _ <~ vec_store series_factorT 0 1 ;;
  let barT_fac := 1 / barT - 1.0 in
  _ <~ for_rangeS 1 6
         (fun i _ =>
            prev <~ vec_load series_factorT (i - 1) ;;
            vec_store series_factorT i (prev * barT_fac))
         tt ;;
  retS series_factorT.

Definition computeSeriesFactorRhoForMu1 (bar_rho : float) : St nat :=
  series_factorRho <~ vec_alloc 7 ;;
  _ <~ vec_store series_factorRho 0 1 ;;
  _ <~ for_rangeS 1 7
         (fun i _ =>
            prev <~ vec_load series_factorRho (i - 1) ;;
            vec_store series_factorRho i (prev * (bar_rho - 1.0)))
         tt ;;
  retS series_factorRho.

Definition computeBarMu1Factor (series_factorT series_factorRho : nat)
  : St float :=
  for_rangeS 0 6
    (fun i sum_val =>
       sum_val_j <~
         for_rangeS 0 7
           (fun j sum_val_j =>
              h <~ Hij_load i j ;;
              r <~ vec_load series_factorRho j ;;
              retS (sum_val_j + h * r))
           0 ;;
       t <~ vec_load series_factorT i ;;
       retS (sum_val + t * sum_val_j))
    0.

Definition computedBarMu_dbarT (exp : float -> float) (barT bar_rho : float)
  : St float :=
  mu0_factor <~ computeBarMu0Factor barT ;;
  let sqrt_barT := sqrt barT in
  ' (dmu0_factor_dbarT, barT_i) <~
    for_rangeS 1 4
      (fun i '(dmu0_factor_dbarT, barT_i) =>
         h <~ Hi_load i ;;
         retS (dmu0_factor_dbarT - B64.of_int i * (h / barT_i),
               barT_i * barT))
      (0.0, barT * barT) ;;
  let dbar_mu0_dbarT :=
    50 / (mu0_factor * sqrt_barT) -
    100 * sqrt_barT * dmu0_factor_dbarT / (mu0_factor * mu0_factor) in
  series_factorT <~ computeSeriesFactorTForMu1 barT ;;
  series_factorRho <~ computeSeriesFactorRhoForMu1 bar_rho ;;
  dmu1_factor_dbarT <~
    for_rangeS 1 6
      (fun i dmu1_factor_dbarT =>
         sum_val_j <~
           for_rangeS 0 7
             (fun j sum_val_j =>
                h <~ Hij_load i j ;;
                r <~ vec_load series_factorRho j ;;
                retS (sum_val_j + h * r))
             0 ;;
         t <~ vec_load series_factorT (i - 1) ;;
         retS (dmu1_factor_dbarT -
               B64.of_int i * t * sum_val_j / (barT * barT)))
      0.0 ;;
  mu1_factor <~ computeBarMu1Factor series_factorT series_factorRho ;;
  let dbar_mu1_dbarT :=
    bar_rho * exp (bar_rho * mu1_factor) * dmu1_factor_dbarT in
  let result :=
    dbar_mu0_dbarT * exp (bar_rho * mu1_factor) +
    dbar_mu1_dbarT * 100 * sqrt_barT / mu0_factor in
  _ <~ vec_free series_factorRho ;;
  _ <~ vec_free series_factorT ;;
  retS result.

Definition computedBarMu_dbarRho (exp : float -> float) (barT bar_rho : float)
  : St float :=
  series_factorT <~ computeSeriesFactorTForMu1 barT ;;
  series_factorRho <~ computeSeriesFactorRhoForMu1 bar_rho ;;
  dmu1_factor_dbar_rho <~
    for_rangeS 0 6
      (fun i dmu1_factor_dbar_rho =>
         sum_val_j <~
           for_rangeS 1 7
             (fun j sum_val_j =>
                h <~ Hij_load i j ;;
                r <~ vec_load series_factorRho (j - 1) ;;
                retS (sum_val_j + B64.of_int j * h * r))
             0 ;;
         t <~ vec_load series_factorT i ;;
         retS (dmu1_factor_dbar_rho + t * sum_val_j))
      0.0 ;;
  f0 <~ computeBarMu0Factor barT ;;
  let mu0 := 100 * sqrt barT / f0 in
  mu1_factor <~ computeBarMu1Factor series_factorT series_factorRho ;;
  let result :=
    mu0 * exp (bar_rho * mu1_factor) *
    (mu1_factor + bar_rho * dmu1_factor_dbar_rho) in
  _ <~ vec_free series_factorRho ;;
  _ <~ vec_free series_factorT ;;
  retS result.

Definition getValue (exp : float -> float) (T rho : float) : St float :=
  let bar_T := T / B64._ref_T in
  let bar_rho := rho / B64._ref_rho in
  f0 <~ computeBarMu0Factor bar_T ;;
  let mu0 := 100 * sqrt bar_T / f0 in
  series_factorT <~ computeSeriesFactorTForMu1 bar_T ;;
  series_factorRho <~ computeSeriesFactorRhoForMu1 bar_rho ;;
  mu1_factor <~ computeBarMu1Factor series_factorT series_factorRho ;;
  let mu1 := exp (bar_rho * mu1_factor) in
  let result := mu0 * mu1 * B64._ref_mu in
  _ <~ vec_free series_factorRho ;;
  _ <~ vec_free series_factorT ;;
  retS result.

Definition getdValuedT (exp : float -> float) (T rho : float) : St float :=
  let bar_T := T / B64._ref_T in
  let bar_rho := rho / B64._ref_rho in
  d <~ computedBarMu_dbarT exp bar_T bar_rho ;;
  retS (B64._ref_mu * d / B64._ref_T).

Definition getdValuedRho (exp : float -> float) (T rho : float) : St float :=
  let bar_T := T / B64._ref_T in
  let bar_rho := rho / B64._ref_rho in
  d <~ computedBarMu_dbarRho exp bar_T bar_rho ;;
  retS (B64._ref_mu * d / B64._ref_rho).

(** A call of one of the entry points, and a sequence of calls. *)
Inductive call : Type :=
| GetValue (T rho : float)
| GetdValuedT (T rho : float)
| GetdValuedRho (T rho : float).

Definition run (exp : float -> float) (c : call) : St float :=
  match c with
  | GetValue T rho => getValue exp T rho
  | GetdValuedT T rho => getdValuedT exp T rho
  | GetdValuedRho T rho => getdValuedRho exp T rho
  end.

Fixpoint run_all (exp : float -> float) (cs : list call) : St (list float) :=
  match cs with
  | [] => retS []
  | c :: cs' =>
      x <~ run exp c ;;
      xs <~ run_all exp cs' ;;
      retS (x :: xs)
  end.

(** The result of a call as a function of its arguments alone. *)
Definition result (exp : float -> float) (c : call) : M float :=
  match c with
  | GetValue T rho => B64.getValue exp T rho
  | GetdValuedT T rho => B64.getdValuedT exp T rho
  | GetdValuedRho T rho => B64.getdValuedRho exp T rho
  end.

(** The tables hold what their initialisers say. *)
Definition tables_ok (m : memory) : Prop :=
  static_Hi m = B64.Hi /\ static_Hij m = B64.Hij.

(** The memory when the program starts. *)
Definition initial : memory := mk_memory B64.Hi B64.Hij [].

End Mem.

(** ** Auxiliary definitions of the proofs *)

(** The vector of the powers [b^0 .. b^(n-1)]. *)
Definition powers (b : double) (n : nat) : list double :=
  map (Double.pow b) (seq 0 n).

(** [f0] as a polynomial in [x = 1 / barT]. *)
Definition f0_poly (x : R) : R :=
  1.67752 + 2.20462 * x + 0.6366564 * (x * x) + -0.241605 * (x * x * x).

(** The residual factor as a polynomial in [u = 1 / barT - 1]. *)
Definition f1_of_u (bar_rho u : R) : R :=
  sum_f_R0 (fun i => u ^ i * Spec.g bar_rho i) 5.

(** A zero or non-finite dilute-gas factor, a non-finite square root or a
    non-finite density make the three reduced results non-finite. *)
Definition singular (barT bar_rho : double) : Prop :=
  Double.sqrt barT = NonFin \/ Ref.f0 barT = NonFin \/ Ref.f0 barT = Fin 0 \/
  bar_rho = NonFin.

(** * Properties *)

(** ** Laws of the arithmetic model *)

Module DoubleFacts.

Lemma add_0_l (x : double) : (Fin 0 + x)%D = x.
Proof. destruct x; cbn; [now rewrite Rplus_0_l|reflexivity]. Qed.

Lemma mul_1_l (x : double) : (Fin 1 * x)%D = x.
Proof. destruct x; cbn; [now rewrite Rmult_1_l|reflexivity]. Qed.

Lemma mul_1_r (x : double) : (x * Fin 1)%D = x.
Proof. destruct x; cbn; [now rewrite Rmult_1_r|reflexivity]. Qed.

Lemma mul_assoc (x y z : double) : (x * y * z)%D = (x * (y * z))%D.
Proof. destruct x, y, z; cbn; try reflexivity. now rewrite Rmult_assoc. Qed.

Lemma mul_comm (x y : double) : (x * y)%D = (y * x)%D.
Proof. destruct x, y; cbn; try reflexivity. now rewrite Rmult_comm. Qed.

Lemma div_Fin (a b : R) : b <> 0 -> (Fin a / Fin b)%D = Fin (a / b).
Proof. intros Hb. unfold Double.div. now destruct (Req_dec_T b 0). Qed.

Lemma div_Fin_0 (a : R) : (Fin a / Fin 0)%D = NonFin.
Proof. unfold Double.div. now destruct (Req_dec_T 0 0). Qed.

Lemma sqrt_Fin (a : R) : 0 <= a -> Double.sqrt (Fin a) = Fin (sqrt a).
Proof. intros Ha. unfold Double.sqrt. destruct (Rlt_dec a 0); [lra|reflexivity]. Qed.

Lemma sqrt_neg (a : R) : a < 0 -> Double.sqrt (Fin a) = NonFin.
Proof. intros Ha. unfold Double.sqrt. destruct (Rlt_dec a 0); [reflexivity|lra]. Qed.

Lemma add_NonFin_l (x : double) : (NonFin + x)%D = NonFin.
Proof. reflexivity. Qed.

Lemma add_NonFin_r (x : double) : (x + NonFin)%D = NonFin.
Proof. now destruct x. Qed.

Lemma sub_NonFin_l (x : double) : (NonFin - x)%D = NonFin.
Proof. reflexivity. Qed.

Lemma sub_NonFin_r (x : double) : (x - NonFin)%D = NonFin.
Proof. now destruct x. Qed.

Lemma mul_NonFin_l (x : double) : (NonFin * x)%D = NonFin.
Proof. reflexivity. Qed.

Lemma mul_NonFin_r (x : double) : (x * NonFin)%D = NonFin.
Proof. now destruct x. Qed.

Lemma div_NonFin_l (x : double) : (NonFin / x)%D = NonFin.
Proof. reflexivity. Qed.

Lemma div_NonFin_r (x : double) : (x / NonFin)%D = NonFin.
Proof. now destruct x. Qed.


End DoubleFacts.

(** ** The code against the closed forms, in the arithmetic of the program *)

Ltac run_code :=
  cbv [computeBarMu0Factor computeSeriesFactorTForMu1
       computeSeriesFactorRhoForMu1 computeBarMu1Factor for_range for_loop
       bind ret vec_get vec_set vec_new nth_error repeat map Hi Hij Hi_tab
       Hij_tab Hij_get Nat.sub seq
       Ref.f0 Ref.f1 Ref.dsum Ref.H Ref.Hc nth Double.pow].

Ltac norm_double :=
  rewrite ?DoubleFacts.add_0_l, ?DoubleFacts.mul_1_l, ?DoubleFacts.mul_1_r,
    ?DoubleFacts.mul_assoc;
  replace 1.0 with 1 by lra.

Lemma computeBarMu0Factor_ref (barT : double) :
  computeBarMu0Factor barT = Some (Ref.f0 barT).
Proof. run_code. norm_double. reflexivity. Qed.

Lemma computeSeriesFactorTForMu1_powers (barT : double) :
  computeSeriesFactorTForMu1 barT = Some (powers (Fin 1 / barT - Fin 1) 6).
Proof. unfold powers. run_code. norm_double. reflexivity. Qed.

Lemma computeSeriesFactorRhoForMu1_powers (bar_rho : double) :
  computeSeriesFactorRhoForMu1 bar_rho = Some (powers (bar_rho - Fin 1) 7).
Proof. unfold powers. run_code. norm_double. reflexivity. Qed.

Lemma computeBarMu1Factor_ref (barT bar_rho : double) :
  computeBarMu1Factor (powers (Fin 1 / barT - Fin 1) 6)
                      (powers (bar_rho - Fin 1) 7)
  = Some (Ref.f1 barT bar_rho).
Proof. unfold powers. run_code. norm_double. reflexivity. Qed.

Lemma getValue_ref (T rho : double) :
  getValue T rho = Some (Ref.viscosity T rho).
Proof.
  unfold getValue, Ref.viscosity.
  rewrite computeBarMu0Factor_ref, computeSeriesFactorTForMu1_powers,
    computeSeriesFactorRhoForMu1_powers.
  cbn [bind]. rewrite computeBarMu1Factor_ref. cbn [bind ret].
  unfold _ref_T, _ref_rho, _ref_mu.
  replace 1.0e-6 with 1e-6 by lra. reflexivity.
Qed.

(** ** The closed forms on finite arguments *)

Ltac nz :=
  repeat apply Rmult_integral_contrapositive_currified;
  solve [assumption | lra | apply pow_nonzero; assumption].

Ltac fin_arith :=
  repeat (progress (cbn; rewrite ?DoubleFacts.div_Fin by nz)).

Lemma Ref_f0_Fin (s : R) : s <> 0 -> Ref.f0 (Fin s) = Fin (Spec.f0 s).
Proof.
  intros Hs. unfold Ref.f0, Ref.H, Hi, Hi_tab. fin_arith. reflexivity.
Qed.

Lemma Ref_f1_Fin (s r : R) :
  s <> 0 -> Ref.f1 (Fin s) (Fin r) = Fin (Spec.f1 s r).
Proof.
  intros Hs. unfold Ref.f1, Ref.Hc, Hij, Hij_tab. fin_arith. reflexivity.
Qed.

Ltac absorb :=
  rewrite ?DoubleFacts.add_NonFin_l, ?DoubleFacts.add_NonFin_r,
    ?DoubleFacts.sub_NonFin_l, ?DoubleFacts.sub_NonFin_r,
    ?DoubleFacts.mul_NonFin_l, ?DoubleFacts.mul_NonFin_r,
    ?DoubleFacts.div_NonFin_l, ?DoubleFacts.div_NonFin_r.

Lemma Ref_f0_Fin_0 : Ref.f0 (Fin 0) = NonFin.
Proof.
  unfold Ref.f0, Ref.H, Hi, Hi_tab. cbn.
  replace (0 * 1) with 0 by ring. rewrite DoubleFacts.div_Fin_0.
  now absorb.
Qed.

Lemma Ref_viscosity_Fin (T rho : R) :
  0 < T -> Spec.f0 (T / Spec.T_ref) <> 0 ->
  Ref.viscosity (Fin T) (Fin rho) = Fin (Spec.viscosity T rho).
Proof.
  unfold Spec.T_ref. intros HT Hf0. unfold Ref.viscosity.
  assert (Hs : T / 647.096 <> 0) by (apply Rgt_not_eq; lra).
  rewrite !DoubleFacts.div_Fin by lra. cbv zeta.
  rewrite Ref_f0_Fin, Ref_f1_Fin by exact Hs.
  rewrite DoubleFacts.sqrt_Fin by lra.
  cbn [Double.mul]. rewrite DoubleFacts.div_Fin by exact Hf0.
  reflexivity.
Qed.


Lemma computedBarMu_dbarT_Fin (s r : R) :
  0 < s -> Spec.f0 s <> 0 ->
  computedBarMu_dbarT (Fin s) (Fin r) = Some (Fin (Spec.dmu_dT s r)).
Proof.
  intros Hs Hf0.
  assert (Hs0 : s <> 0) by lra.
  assert (Hsq : sqrt s <> 0) by (apply Rgt_not_eq, sqrt_lt_R0; lra).
  unfold computedBarMu_dbarT.
  rewrite computeBarMu0Factor_ref, computeSeriesFactorTForMu1_powers,
    computeSeriesFactorRhoForMu1_powers.
  replace (Fin 1.0) with (Fin 1) by (f_equal; lra).
  cbn [bind]. rewrite computeBarMu1Factor_ref.
  rewrite Ref_f0_Fin, Ref_f1_Fin by exact Hs0.
  rewrite DoubleFacts.sqrt_Fin by lra.
  unfold powers, Hi, Hi_tab, Hij_get, Hij, Hij_tab. fin_arith.
  unfold ret. do 2 f_equal.
  replace 0.0 with 0 by lra.
  unfold Spec.dmu_dT, Spec.dmu0, Spec.df0, Spec.mu1, Spec.dmu1_dT, Spec.mu0,
    Spec.df1_dT, Spec.g, Spec.S_T, Spec.S_rho, Spec.H, Spec.Hc, Hi_tab, Hij_tab,
    sum_f, Rsqr.
  simpl. field. auto.
Qed.

Lemma computedBarMu_dbarRho_Fin (s r : R) :
  0 < s -> Spec.f0 s <> 0 ->
  computedBarMu_dbarRho (Fin s) (Fin r) = Some (Fin (Spec.dmu_drho s r)).
Proof.
  intros Hs Hf0.
  assert (Hs0 : s <> 0) by lra.
  unfold computedBarMu_dbarRho.
  rewrite computeBarMu0Factor_ref, computeSeriesFactorTForMu1_powers,
    computeSeriesFactorRhoForMu1_powers.
  replace (Fin 1.0) with (Fin 1) by (f_equal; lra).
  cbn [bind]. rewrite computeBarMu1Factor_ref.
  rewrite Ref_f0_Fin, Ref_f1_Fin by exact Hs0.
  rewrite DoubleFacts.sqrt_Fin by lra.
  unfold powers, Hij_get, Hij, Hij_tab. fin_arith.
  unfold ret. do 2 f_equal.
  replace 0.0 with 0 by lra.
  unfold Spec.dmu_drho, Spec.mu0, Spec.df1_drho, Spec.S_T, Spec.S_rho,
    Spec.Hc, Hij_tab, sum_f.
  simpl. field. auto.
Qed.

Lemma getdValuedT_Fin (T rho : R) :
  0 < T -> Spec.f0 (T / Spec.T_ref) <> 0 ->
  getdValuedT (Fin T) (Fin rho) = Some (Fin (Spec.d_viscosity_dT T rho)).
Proof.
  unfold Spec.T_ref. intros HT Hf0. unfold getdValuedT, _ref_T, _ref_rho, _ref_mu.
  rewrite !DoubleFacts.div_Fin by lra. cbv zeta.
  rewrite computedBarMu_dbarT_Fin by (try apply Rdiv_lt_0_compat; auto; lra).
  cbn [bind ret Double.mul]. rewrite DoubleFacts.div_Fin by lra.
  replace 1.0e-6 with 1e-6 by lra. reflexivity.
Qed.

Lemma getdValuedRho_Fin (T rho : R) :
  0 < T -> Spec.f0 (T / Spec.T_ref) <> 0 ->
  getdValuedRho (Fin T) (Fin rho) = Some (Fin (Spec.d_viscosity_dRho T rho)).
Proof.
  unfold Spec.T_ref. intros HT Hf0. unfold getdValuedRho, _ref_T, _ref_rho, _ref_mu.
  rewrite !DoubleFacts.div_Fin by lra. cbv zeta.
  rewrite computedBarMu_dbarRho_Fin by (try apply Rdiv_lt_0_compat; auto; lra).
  cbn [bind ret Double.mul]. rewrite DoubleFacts.div_Fin by lra.
  replace 1.0e-6 with 1e-6 by lra. reflexivity.
Qed.

(** ** Differentiation of the closed forms *)



(** One step of symbolic differentiation; the derivative is an existential
    variable that the rules instantiate. *)
Ltac deriv_step :=
  lazymatch goal with
  | |- derivable_pt_lim (fun _ => ?c) _ _ => apply derivable_pt_lim_const
  | |- derivable_pt_lim (fun x => x) _ _ => apply derivable_pt_lim_id
  | |- derivable_pt_lim (fun x => @?f x + @?g x) ?a _ =>
      eapply (derivable_pt_lim_plus f g a)
  | |- derivable_pt_lim (fun x => @?f x - @?g x) ?a _ =>
      eapply (derivable_pt_lim_minus f g a)
  | |- derivable_pt_lim (fun x => @?f x * @?g x) ?a _ =>
      eapply (derivable_pt_lim_mult f g a)
  | |- derivable_pt_lim (fun x => @?f x / @?g x) ?a _ =>
      eapply (derivable_pt_lim_div f g a)
  | |- derivable_pt_lim (fun x => - @?f x) ?a _ =>
      eapply (derivable_pt_lim_opp f a)
  | |- derivable_pt_lim (fun x => exp (@?f x)) ?a _ =>
      eapply (derivable_pt_lim_comp f exp a);
      [ | apply derivable_pt_lim_exp ]
  | |- derivable_pt_lim (fun x => sqrt (@?f x)) ?a _ =>
      eapply (derivable_pt_lim_comp f sqrt a);
      [ | apply derivable_pt_lim_sqrt ]
  end.










(** ** The pole of the dilute-gas term *)

Lemma f0_poly_continuity : continuity (fun x => - f0_poly x).
Proof.
  apply derivable_continuous. intros x.
  eexists. unfold derivable_pt_abs, f0_poly. repeat deriv_step.
Qed.

Lemma Spec_f0_poly (x : R) : x <> 0 -> Spec.f0 (1 / x) = f0_poly x.
Proof.
  intros Hx. unfold Spec.f0, Spec.H, Hi_tab, f0_poly. simpl. field. exact Hx.
Qed.

(** The dilute-gas factor vanishes at a positive reduced temperature
    (between 1/5 and 1/4, that is between 129.4 K and 161.8 K). *)
Lemma Spec_f0_root : exists s : R, 1 / 5 <= s <= 1 / 4 /\ Spec.f0 s = 0.
Proof.
  destruct (IVT (fun x => - f0_poly x) 4 5 f0_poly_continuity)
    as [z [[Hz1 Hz2] Hz]]; try (unfold f0_poly; lra).
  exists (1 / z). split.
  - split.
    + apply Rmult_le_reg_r with (r := z * 5); [lra|]. field_simplify; lra.
    + apply Rmult_le_reg_r with (r := z * 4); [lra|]. field_simplify; lra.
  - rewrite Spec_f0_poly by lra. lra.
Qed.

(** ** The entry points on finite arguments *)

Lemma getValue_Fin (T rho : R) :
  0 < T -> Spec.f0 (T / Spec.T_ref) <> 0 ->
  getValue (Fin T) (Fin rho) = Some (Fin (Spec.viscosity T rho)).
Proof. intros HT Hf0. now rewrite getValue_ref, Ref_viscosity_Fin. Qed.




(** ** The critical point *)

Lemma Spec_f0_1 : Spec.f0 1 = 4.2771914.
Proof. unfold Spec.f0, Spec.H, Hi_tab. simpl. lra. Qed.

Lemma Spec_f1_1_1 : Spec.f1 1 1 = 0.520094.
Proof.
  unfold Spec.f1, Spec.g, Spec.S_T, Spec.S_rho, Spec.Hc, Hij_tab. simpl. lra.
Qed.

Lemma Spec_f0_critical : Spec.f0 (647.096 / Spec.T_ref) <> 0.
Proof.
  unfold Spec.T_ref. replace (647.096 / 647.096) with 1 by lra.
  rewrite Spec_f0_1. lra.
Qed.

(** ** The critical point, as stated *)

(** C4.  At the critical point, [T = 647.096] and [rho = 322.0], the reduced
    variables are both [1], the two series-factor vectors are
    [[1;0;0;0;0;0]] and [[1;0;0;0;0;0;0]], the residual factor is the single
    coefficient [Hij[0][0] = 0.520094], and [getValue] returns
    [100 / (H[0] + H[1] + H[2] + H[3]) * exp 0.520094 * 1e-6]. *)
Theorem getValue_critical_point :
  (Fin 647.096 / _ref_T)%D = Fin 1 /\
  (Fin 322.0 / _ref_rho)%D = Fin 1 /\
  computeSeriesFactorTForMu1 (Fin 1) = Some (map Fin [1; 0; 0; 0; 0; 0]) /\
  computeSeriesFactorRhoForMu1 (Fin 1) = Some (map Fin [1; 0; 0; 0; 0; 0; 0]) /\
  computeBarMu1Factor (map Fin [1; 0; 0; 0; 0; 0])
                      (map Fin [1; 0; 0; 0; 0; 0; 0]) = Some (Fin 0.520094) /\
  Hij_get 0 0 = Some (Fin 0.520094) /\
  getValue (Fin 647.096) (Fin 322.0) =
    Some (Fin (100 / sum_f_R0 Spec.H 3 * exp 0.520094 * 1e-6)).
Proof.
  assert (HsT : computeSeriesFactorTForMu1 (Fin 1)
                = Some (map Fin [1; 0; 0; 0; 0; 0])).
  { rewrite computeSeriesFactorTForMu1_powers. unfold powers.
    rewrite DoubleFacts.div_Fin by lra. cbn. repeat f_equal; lra. }
  assert (HsR : computeSeriesFactorRhoForMu1 (Fin 1)
                = Some (map Fin [1; 0; 0; 0; 0; 0; 0])).
  { rewrite computeSeriesFactorRhoForMu1_powers. unfold powers.
    cbn. repeat f_equal; lra. }
  repeat split.
  - unfold _ref_T. rewrite DoubleFacts.div_Fin by lra. f_equal. lra.
  - unfold _ref_rho. rewrite DoubleFacts.div_Fin by lra. f_equal. lra.
  - exact HsT.
  - exact HsR.
  - unfold computeBarMu1Factor, for_range, Hij_get, Hij, Hij_tab. cbn.
    unfold ret. do 2 f_equal. lra.
  - rewrite getValue_Fin by (try exact Spec_f0_critical; lra).
    do 2 f_equal. unfold Spec.viscosity, Spec.mu0, Spec.T_ref, Spec.rho_ref,
      Spec.mu_ref.
    replace (647.096 / 647.096) with 1 by lra.
    replace (322.0 / 322.0) with 1 by lra.
    rewrite Spec_f1_1_1, Rmult_1_l, sqrt_1, Rmult_1_r.
    replace (Spec.f0 1) with (sum_f_R0 Spec.H 3)
      by (unfold Spec.f0, Spec.H, Hi_tab; simpl; lra).
    reflexivity.
Qed.

(** ** Totality *)

Lemma computedBarMu_dbarT_total (barT bar_rho : double) :
  exists v : double, computedBarMu_dbarT barT bar_rho = Some v.
Proof.
  unfold computedBarMu_dbarT.
  rewrite computeBarMu0Factor_ref, computeSeriesFactorTForMu1_powers,
    computeSeriesFactorRhoForMu1_powers.
  replace (Fin 1.0) with (Fin 1) by (f_equal; lra).
  cbn [bind]. rewrite computeBarMu1Factor_ref.
  unfold powers, Hi, Hi_tab, Hij_get, Hij, Hij_tab. cbn.
  eexists. reflexivity.
Qed.

Lemma computedBarMu_dbarRho_total (barT bar_rho : double) :
  exists v : double, computedBarMu_dbarRho barT bar_rho = Some v.
Proof.
  unfold computedBarMu_dbarRho.
  rewrite computeBarMu0Factor_ref, computeSeriesFactorTForMu1_powers,
    computeSeriesFactorRhoForMu1_powers.
  replace (Fin 1.0) with (Fin 1) by (f_equal; lra).
  cbn [bind]. rewrite computeBarMu1Factor_ref.
  unfold powers, Hij_get, Hij, Hij_tab. cbn.
  eexists. reflexivity.
Qed.

(** C8.  For every pair of inputs, finite or not, positive or not, each of
    the three entry points returns a double: no access is out of range and no
    input is rejected.  (The double returned may be non-finite.) *)
Theorem entry_points_total (T rho : double) :
  (exists v : double, getValue T rho = Some v) /\
  (exists v : double, getdValuedT T rho = Some v) /\
  (exists v : double, getdValuedRho T rho = Some v).
Proof.
  repeat split.
  - exists (Ref.viscosity T rho). apply getValue_ref.
  - unfold getdValuedT.
    destruct (computedBarMu_dbarT_total (T / _ref_T) (rho / _ref_rho))
      as [v ->].
    eexists. reflexivity.
  - unfold getdValuedRho.
    destruct (computedBarMu_dbarRho_total (T / _ref_T) (rho / _ref_rho))
      as [v ->].
    eexists. reflexivity.
Qed.

(** ** Monotonicity in the dilute-gas region *)

Lemma Spec_f1_of_u (s r : R) : Spec.f1 s r = f1_of_u r (1 / s - 1).
Proof. reflexivity. Qed.

(** Near zero density the coefficients of [u^1 .. u^5] are negative. *)
Lemma Spec_g_bounds (r : R) :
  0 <= r <= 0.01 ->
  Spec.g r 1 <= -2 /\
  -3.75 <= Spec.g r 2 <= 0 /\
  Spec.g r 3 <= 0 /\
  -0.27 <= Spec.g r 4 <= 0 /\
  Spec.g r 5 <= 0.
Proof.
  intros Hr. unfold Spec.g, Spec.S_rho, Spec.Hc, Hij_tab. simpl.
  set (v := r - 1).
  assert (Hv : -1 <= v <= -0.99) by (unfold v; lra).
  assert (H2 : 0.9801 <= v * v <= 1) by nra.
  assert (H3 : -1 <= v * (v * v) <= -0.97) by nra.
  assert (H4 : 0 <= v * (v * (v * v)) <= 1) by nra.
  assert (H5 : -1 <= v * (v * (v * (v * v))) <= 0) by nra.
  assert (H6 : 0 <= v * (v * (v * (v * (v * v)))) <= 1) by nra.
  rewrite !Rmult_1_r. repeat split; lra.
Qed.

Lemma f1_of_u_antitone (r u1 u2 : R) :
  0 <= r <= 0.01 -> -0.2 <= u2 -> u2 <= u1 -> u1 <= 1.4 ->
  f1_of_u r u1 <= f1_of_u r u2.
Proof.
  intros Hr Hlo Hle Hhi.
  destruct (Spec_g_bounds r Hr) as (Hg1 & Hg2 & Hg3 & Hg4 & Hg5).
  unfold f1_of_u. cbn [sum_f_R0 pow].
  generalize dependent (Spec.g r 1). generalize dependent (Spec.g r 2).
  generalize dependent (Spec.g r 3). generalize dependent (Spec.g r 4).
  generalize dependent (Spec.g r 5). generalize (Spec.g r 0).
  intros g0 g5 Hg5 g4 Hg4 g3 Hg3 g2 Hg2 g1 Hg1.
  set (a := u1 + u2).
  set (c := u1 * u1 + u2 * u2).
  set (p3 := u1 * u1 + u1 * u2 + u2 * u2).
  set (p5 := u1 * u1 * u1 * u1 + u1 * u1 * u1 * u2 + u1 * u1 * u2 * u2 +
             u1 * u2 * u2 * u2 + u2 * u2 * u2 * u2).
  assert (Hp3 : 0 <= p3) by (unfold p3; nra).
  assert (Hp5 : 0 <= p5) by (unfold p5; nra).
  assert (Hc : 0 <= c <= 3.92) by (unfold c; nra).
  assert (Ha : -0.4 <= a) by (unfold a; lra).
  assert (H3 : g3 * p3 <= 0) by nra.
  assert (H5 : g5 * p5 <= 0) by nra.
  assert (H2 : g2 * a <= 1.5) by nra.
  assert (H4 : g4 * (a * c) <= 0.45).
  { assert (Hca : 0 <= c * (a + 0.4)) by nra.
    assert (Hg4c : -0.27 * c <= g4 * c) by nra.
    assert (g4 * (c * (a + 0.4)) <= 0) by nra.
    nra. }
  assert (HQ : g1 + g2 * a + g3 * p3 + g4 * (a * c) + g5 * p5 <= 0) by lra.
  assert (Hprod : (u1 - u2) * (g1 + g2 * a + g3 * p3 + g4 * (a * c) + g5 * p5)
                  <= 0) by nra.
  match goal with
  | |- ?l <= ?r =>
      replace l with
        (r + (u1 - u2) * (g1 + g2 * a + g3 * p3 + g4 * (a * c) + g5 * p5))
        by (unfold a, c, p3, p5; ring)
  end.
  lra.
Qed.

Lemma f0_poly_pos (x : R) : 0.8 <= x <= 2.37 -> 0 < f0_poly x.
Proof. intros Hx. unfold f0_poly. nra. Qed.

Lemma f0_poly_incr (x1 x2 : R) :
  0.8 <= x2 -> x2 <= x1 -> x1 <= 2.37 -> f0_poly x2 <= f0_poly x1.
Proof.
  intros Hlo Hle Hhi. unfold f0_poly.
  assert (A1 : x1 * x1 <= 3.17 * x1 - 1.896) by nra.
  assert (A2 : x2 * x2 <= 3.17 * x2 - 1.896) by nra.
  assert (A3 : x1 * x2 <= 2.37 * x1 + 0.8 * x2 - 1.896) by nra.
  assert (Hq : 0 <= 2.20462 + 0.6366564 * (x1 + x2) +
                    -0.241605 * (x1 * x1 + x1 * x2 + x2 * x2)) by lra.
  assert (Hprod : 0 <= (x1 - x2) *
                       (2.20462 + 0.6366564 * (x1 + x2) +
                        -0.241605 * (x1 * x1 + x1 * x2 + x2 * x2))) by nra.
  lra.
Qed.

Lemma Spec_f0_as_poly (s : R) : s <> 0 -> Spec.f0 s = f0_poly (1 / s).
Proof.
  intros Hs. rewrite <- Spec_f0_poly.
  - f_equal. field. exact Hs.
  - unfold Rdiv. rewrite Rmult_1_l. now apply Rinv_neq_0_compat.
Qed.

(** * Further properties of the code *)

(** ** The shape of the two derivative functions, on every input *)

Lemma computedBarMu_dbarT_shape (barT bar_rho : double) :
  exists d0 d1 : double,
    computedBarMu_dbarT barT bar_rho =
    Some ((Fin 50 / (Ref.f0 barT * Double.sqrt barT) -
           Fin 100 * Double.sqrt barT * d0 / (Ref.f0 barT * Ref.f0 barT)) *
          Double.exp (bar_rho * Ref.f1 barT bar_rho) +
          bar_rho * Double.exp (bar_rho * Ref.f1 barT bar_rho) * d1 *
          Fin 100 * Double.sqrt barT / Ref.f0 barT)%D.
Proof.
  unfold computedBarMu_dbarT.
  rewrite computeBarMu0Factor_ref, computeSeriesFactorTForMu1_powers,
    computeSeriesFactorRhoForMu1_powers.
  replace (Fin 1.0) with (Fin 1) by (f_equal; lra).
  cbn [bind]. rewrite computeBarMu1Factor_ref.
  generalize (Ref.f0 barT) (Ref.f1 barT bar_rho). intros F0 F1.
  unfold powers, Hi, Hi_tab, Hij_get, Hij, Hij_tab. cbn.
  do 2 eexists. reflexivity.
Qed.

Lemma computedBarMu_dbarRho_shape (barT bar_rho : double) :
  exists d1 : double,
    computedBarMu_dbarRho barT bar_rho =
    Some (Fin 100 * Double.sqrt barT / Ref.f0 barT *
          Double.exp (bar_rho * Ref.f1 barT bar_rho) *
          (Ref.f1 barT bar_rho + bar_rho * d1))%D.
Proof.
  unfold computedBarMu_dbarRho.
  rewrite computeBarMu0Factor_ref, computeSeriesFactorTForMu1_powers,
    computeSeriesFactorRhoForMu1_powers.
  replace (Fin 1.0) with (Fin 1) by (f_equal; lra).
  cbn [bind]. rewrite computeBarMu1Factor_ref.
  generalize (Ref.f0 barT) (Ref.f1 barT bar_rho). intros F0 F1.
  unfold powers, Hij_get, Hij, Hij_tab. cbn.
  eexists. reflexivity.
Qed.

(** ** Where the results are not finite *)

Lemma exp_NonFin : Double.exp NonFin = NonFin.
Proof. reflexivity. Qed.

Lemma sqrt_NonFin : Double.sqrt NonFin = NonFin.
Proof. reflexivity. Qed.

Ltac absorb_all :=
  repeat (progress (absorb; rewrite ?exp_NonFin, ?sqrt_NonFin)).

Lemma div_by_zero_factor (a : R) (x : double) : (Fin a / (Fin 0 * x))%D = NonFin.
Proof.
  destruct x as [b|]; cbn; [|reflexivity].
  rewrite Rmult_0_l. apply DoubleFacts.div_Fin_0.
Qed.

Lemma div_by_zero (x : double) : (x / Fin 0)%D = NonFin.
Proof. destruct x; [apply DoubleFacts.div_Fin_0|reflexivity]. Qed.

Lemma Ref_viscosity_singular (T rho : double) :
  singular (T / Fin 647.096) (rho / Fin 322.0) ->
  Ref.viscosity T rho = NonFin.
Proof.
  unfold Ref.viscosity. cbv zeta.
  intros [H|[H|[H|H]]]; rewrite H; try rewrite div_by_zero; now absorb_all.
Qed.

Lemma computedBarMu_dbarT_singular (barT bar_rho : double) :
  singular barT bar_rho -> computedBarMu_dbarT barT bar_rho = Some NonFin.
Proof.
  intros Hs. destruct (computedBarMu_dbarT_shape barT bar_rho) as [d0 [d1 ->]].
  f_equal.
  destruct Hs as [H|[H|[H|H]]]; rewrite H;
    try rewrite div_by_zero_factor; now absorb_all.
Qed.

Lemma computedBarMu_dbarRho_singular (barT bar_rho : double) :
  singular barT bar_rho -> computedBarMu_dbarRho barT bar_rho = Some NonFin.
Proof.
  intros Hs. destruct (computedBarMu_dbarRho_shape barT bar_rho) as [d1 ->].
  f_equal.
  destruct Hs as [H|[H|[H|H]]]; rewrite H; try rewrite div_by_zero;
    now absorb_all.
Qed.

Lemma entry_points_singular (T rho : double) :
  singular (T / _ref_T) (rho / _ref_rho) ->
  getValue T rho = Some NonFin /\
  getdValuedT T rho = Some NonFin /\
  getdValuedRho T rho = Some NonFin.
Proof.
  intros Hs. repeat split.
  - rewrite getValue_ref. f_equal. apply Ref_viscosity_singular.
    unfold _ref_T, _ref_rho in Hs. exact Hs.
  - unfold getdValuedT. cbv zeta. rewrite computedBarMu_dbarT_singular by exact Hs.
    reflexivity.
  - unfold getdValuedRho. cbv zeta.
    rewrite computedBarMu_dbarRho_singular by exact Hs. reflexivity.
Qed.

Lemma singular_nonpositive (T rho : R) :
  T <= 0 -> singular (Fin T / _ref_T) (Fin rho / _ref_rho).
Proof.
  intros HT. unfold singular, _ref_T. rewrite DoubleFacts.div_Fin by lra.
  destruct (Req_dec_T T 0) as [->|Hnz].
  - right. left. replace (0 / 647.096) with 0 by lra. apply Ref_f0_Fin_0.
  - left. apply DoubleFacts.sqrt_neg. lra.
Qed.

(** X1.  A temperature that is zero or negative is not rejected: for every
    [T <= 0] and every density the three entry points return a non-finite
    double. *)
Theorem entry_points_nonpositive_T (T rho : R) :
  T <= 0 ->
  getValue (Fin T) (Fin rho) = Some NonFin /\
  getdValuedT (Fin T) (Fin rho) = Some NonFin /\
  getdValuedRho (Fin T) (Fin rho) = Some NonFin.
Proof.
  intros HT. apply entry_points_singular. now apply singular_nonpositive.
Qed.

Lemma entry_points_nonpositive_T_witness :
  getValue (Fin (-5)) (Fin 998) = Some NonFin /\
  getdValuedT (Fin (-5)) (Fin 998) = Some NonFin /\
  getdValuedRho (Fin (-5)) (Fin 998) = Some NonFin.
Proof. apply (entry_points_nonpositive_T (-5) 998). lra. Defined.

(** ** The sign of the dilute-gas factor and of the viscosity *)

Lemma f0_poly_neg (x : R) : 5 <= x -> f0_poly x < 0.
Proof.
  intros Hx. unfold f0_poly.
  assert (H1 : 0.6366564 + -0.241605 * x <= -0.57) by lra.
  assert (H2 : x * (0.6366564 + -0.241605 * x) <= -2.85) by nra.
  assert (H3 : x * (2.20462 + x * (0.6366564 + -0.241605 * x)) <= -3.2) by nra.
  nra.
Qed.

(** The reduced temperature and its inverse. *)
Lemma reduced_T (T : R) :
  0 < T ->
  0 < T / Spec.T_ref /\ 1 / (T / Spec.T_ref) = 647.096 / T /\ 0 < 647.096 / T.
Proof.
  intros HT. unfold Spec.T_ref. repeat split.
  - apply Rdiv_lt_0_compat; lra.
  - field. lra.
  - apply Rdiv_lt_0_compat; lra.
Qed.

Lemma Spec_f0_neg_to_129 (T : R) :
  0 < T -> T <= 129 -> Spec.f0 (T / Spec.T_ref) < 0.
Proof.
  intros HT HT'. destruct (reduced_T T HT) as (Hs & Hx & Hxpos).
  rewrite Spec_f0_as_poly by lra. rewrite Hx. apply f0_poly_neg.
  apply Rmult_le_reg_r with (r := T); [lra|].
  unfold Rdiv. rewrite Rmult_assoc, Rinv_l by lra. lra.
Qed.

Lemma Spec_viscosity_sign (T rho : R) :
  0 < T ->
  (0 < Spec.f0 (T / Spec.T_ref) -> 0 < Spec.viscosity T rho) /\
  (Spec.f0 (T / Spec.T_ref) < 0 -> Spec.viscosity T rho < 0).
Proof.
  intros HT. destruct (reduced_T T HT) as (Hs & _ & _).
  assert (Hsq : 0 < sqrt (T / Spec.T_ref)) by (apply sqrt_lt_R0; exact Hs).
  unfold Spec.viscosity, Spec.mu0, Spec.mu_ref.
  set (E := exp _). assert (HE : 0 < E) by apply exp_pos.
  set (f := Spec.f0 _). split; intros Hf.
  - assert (0 < 100 * sqrt (T / Spec.T_ref) / f)
      by (apply Rdiv_lt_0_compat; lra).
    nra.
  - assert (Hm : 0 < 100 * sqrt (T / Spec.T_ref) / - f)
      by (apply Rdiv_lt_0_compat; lra).
    replace (100 * sqrt (T / Spec.T_ref) / f)
      with (- (100 * sqrt (T / Spec.T_ref) / - f)) by (field; lra).
    nra.
Qed.

(** ** The temperature derivative in the dilute-gas region *)

Lemma Spec_df0_as_poly (s : R) :
  s <> 0 ->
  Spec.df0 s =
  - (1 / s * (1 / s)) *
  (2.20462 + 2 * 0.6366564 * (1 / s) + 3 * -0.241605 * (1 / s * (1 / s))).
Proof.
  intros Hs. unfold Spec.df0, Spec.H, Hi_tab, sum_f. simpl. field. exact Hs.
Qed.

Lemma f0_poly_slope_nonneg (x : R) :
  0.8 <= x <= 2.37 ->
  0 <= 2.20462 + 2 * 0.6366564 * x + 3 * -0.241605 * (x * x).
Proof.
  intros Hx. assert (A : x * x <= 3.17 * x - 1.896) by nra. lra.
Qed.

Lemma Spec_df1_dT_as_sum (s r : R) :
  Spec.df1_dT s r =
  - (1 / (s * s)) *
  (Spec.g r 1 + 2 * (1 / s - 1) * Spec.g r 2 +
   3 * ((1 / s - 1) * (1 / s - 1)) * Spec.g r 3 +
   4 * ((1 / s - 1) * (1 / s - 1) * (1 / s - 1)) * Spec.g r 4 +
   5 * ((1 / s - 1) * (1 / s - 1) * (1 / s - 1) * (1 / s - 1)) * Spec.g r 5).
Proof.
  unfold Spec.df1_dT, Spec.S_T, sum_f, Rsqr.
  cbn [sum_f_R0 Nat.sub Nat.add pow INR]. ring.
Qed.

Lemma f1_slope_nonpos (r u : R) :
  0 <= r <= 0.01 -> -0.2 <= u <= 1.4 ->
  Spec.g r 1 + 2 * u * Spec.g r 2 + 3 * (u * u) * Spec.g r 3 +
  4 * (u * u * u) * Spec.g r 4 + 5 * (u * u * u * u) * Spec.g r 5 <= -0.4.
Proof.
  intros Hr Hu.
  destruct (Spec_g_bounds r Hr) as (Hg1 & Hg2 & Hg3 & Hg4 & Hg5).
  generalize dependent (Spec.g r 1). generalize dependent (Spec.g r 2).
  generalize dependent (Spec.g r 3). generalize dependent (Spec.g r 4).
  generalize dependent (Spec.g r 5).
  intros g5 Hg5 g4 Hg4 g3 Hg3 g2 Hg2 g1 Hg1.
  assert (H2 : u * g2 <= 0.75) by nra.
  assert (Hu2 : 0 <= u * u) by nra.
  assert (H3 : (u * u) * g3 <= 0) by nra.
  assert (Hu4 : 0 <= u * u * u * u) by nra.
  assert (H5 : (u * u * u * u) * g5 <= 0) by nra.
  assert (Hu3 : -0.008 <= u * u * u).
  { assert (0 <= (u * u) * (u + 0.2)) by nra.
    assert (u * u <= 0.04 \/ 0 <= u) by
      (destruct (Rle_dec 0 u); [right; lra|left; nra]).
    nra. }
  assert (H4 : (u * u * u) * g4 <= 0.0025).
  { assert (0 <= (u * u * u + 0.008) * (- g4)) by nra. nra. }
  nra.
Qed.

(** In the region the closed form of the temperature derivative is positive. *)
Lemma Spec_d_viscosity_dT_pos (T rho : R) :
  0 <= rho <= 1 -> 273.15 <= T <= 800 ->
  0 < Spec.f0 (T / Spec.T_ref) /\ 0 < Spec.d_viscosity_dT T rho.
Proof.
  intros Hrho HT.
  destruct (reduced_T T ltac:(lra)) as (Hs & Hx & Hxpos).
  set (s := T / Spec.T_ref) in *.
  assert (Hxr : 0.8 <= 1 / s <= 2.37).
  { rewrite Hx. split.
    - apply Rmult_le_reg_r with (r := T); [lra|].
      unfold Rdiv. rewrite Rmult_assoc, Rinv_l by lra. lra.
    - apply Rmult_le_reg_r with (r := T); [lra|].
      unfold Rdiv. rewrite Rmult_assoc, Rinv_l by lra. lra. }
  assert (Hf0 : 0 < Spec.f0 s)
    by (rewrite Spec_f0_as_poly by lra; now apply f0_poly_pos).
  split; [exact Hf0|].
  set (r := rho / Spec.rho_ref).
  assert (Hr : 0 <= r <= 0.01) by (unfold r, Spec.rho_ref; lra).
  assert (Hsq : 0 < sqrt s) by (apply sqrt_lt_R0; exact Hs).
  (* the dilute-gas part *)
  assert (Hdf0 : Spec.df0 s <= 0).
  { rewrite Spec_df0_as_poly by lra.
    pose proof (f0_poly_slope_nonneg (1 / s) Hxr). nra. }
  assert (Hdmu0 : 0 < Spec.dmu0 s).
  { unfold Spec.dmu0, Rsqr.
    assert (H1 : 0 < 50 / (Spec.f0 s * sqrt s))
      by (apply Rdiv_lt_0_compat; nra).
    assert (H2 : 0 <= 100 * sqrt s * - Spec.df0 s / (Spec.f0 s * Spec.f0 s)).
    { apply Rmult_le_pos; [nra|]. left. apply Rinv_0_lt_compat. nra. }
    replace (100 * sqrt s * Spec.df0 s / (Spec.f0 s * Spec.f0 s))
      with (- (100 * sqrt s * - Spec.df0 s / (Spec.f0 s * Spec.f0 s)))
      by (field; lra).
    lra. }
  assert (Hmu0 : 0 < Spec.mu0 s)
    by (unfold Spec.mu0; apply Rdiv_lt_0_compat; lra).
  (* the residual part *)
  assert (Hdf1 : 0 <= Spec.df1_dT s r).
  { rewrite Spec_df1_dT_as_sum.
    pose proof (f1_slope_nonpos r (1 / s - 1) Hr ltac:(lra)) as Hsl.
    assert (Hinv : 0 < 1 / (s * s)).
    { unfold Rdiv. rewrite Rmult_1_l. apply Rinv_0_lt_compat. nra. }
    nra. }
  assert (HE : 0 < exp (r * Spec.f1 s r)) by apply exp_pos.
  assert (Hdmu1 : 0 <= Spec.dmu1_dT s r).
  { unfold Spec.dmu1_dT. apply Rmult_le_pos; [nra|exact Hdf1]. }
  assert (Hd : 0 < Spec.dmu_dT s r).
  { unfold Spec.dmu_dT, Spec.mu1. nra. }
  unfold Spec.d_viscosity_dT. fold s r. unfold Spec.mu_ref, Spec.T_ref.
  apply Rdiv_lt_0_compat; lra.
Qed.

(** X8.  On the region [0 <= rho <= 1 kg/m^3], [273.15 K <= T <= 800 K] the
    temperature derivative returned by [getdValuedT] is finite and strictly
    positive. *)
Theorem getdValuedT_positive (T rho : R) :
  0 <= rho <= 1 -> 273.15 <= T <= 800 ->
  exists d : R, getdValuedT (Fin T) (Fin rho) = Some (Fin d) /\ 0 < d.
Proof.
  intros Hrho HT.
  destruct (Spec_d_viscosity_dT_pos T rho Hrho HT) as [Hf0 Hd].
  exists (Spec.d_viscosity_dT T rho). split; [|exact Hd].
  apply getdValuedT_Fin; lra.
Qed.

Lemma getdValuedT_positive_witness :
  exists d : R, getdValuedT (Fin 400) (Fin 0.5) = Some (Fin d) /\ 0 < d.
Proof. apply (getdValuedT_positive 400 0.5); lra. Defined.

(** ** The helper functions on arbitrary arguments *)

Lemma computeBarMu1Factor_short_rho (sT sRho : list double) :
  (length sRho < 7)%nat -> computeBarMu1Factor sT sRho = None.
Proof.
  intros Hlen.
  do 7 (destruct sRho as [|? sRho]; [reflexivity|]).
  cbn in Hlen. lia.
Qed.

Lemma computeBarMu1Factor_short_T (sT sRho : list double) :
  (7 <= length sRho)%nat -> (length sT < 6)%nat ->
  computeBarMu1Factor sT sRho = None.
Proof.
  intros HlenR HlenT.
  do 7 (destruct sRho as [|? sRho]; [cbn in HlenR; lia|]).
  do 6 (destruct sT as [|? sT]; [reflexivity|]).
  cbn in HlenT. lia.
Qed.

Lemma computeBarMu1Factor_long (sT sRho : list double) :
  (6 <= length sT)%nat -> (7 <= length sRho)%nat ->
  exists v : double, computeBarMu1Factor sT sRho = Some v.
Proof.
  intros HlenT HlenR.
  do 7 (destruct sRho as [|? sRho]; [cbn in HlenR; lia|]).
  do 6 (destruct sT as [|? sT]; [cbn in HlenT; lia|]).
  eexists. reflexivity.
Qed.

(** X11.  [computeBarMu1Factor] reads entries 0..5 of its first vector and
    0..6 of its second: it returns a result exactly when the first has at
    least 6 entries and the second at least 7, and an access out of range
    otherwise. *)
Theorem computeBarMu1Factor_bounds (sT sRho : list double) :
  (exists v : double, computeBarMu1Factor sT sRho = Some v) <->
  (6 <= length sT)%nat /\ (7 <= length sRho)%nat.
Proof.
  split.
  - intros [v Hv].
    destruct (Nat.lt_ge_cases (length sRho) 7) as [HR|HR].
    { rewrite computeBarMu1Factor_short_rho in Hv by exact HR. discriminate. }
    destruct (Nat.lt_ge_cases (length sT) 6) as [HT|HT].
    { rewrite computeBarMu1Factor_short_T in Hv by assumption. discriminate. }
    split; assumption.
  - intros [HT HR]. now apply computeBarMu1Factor_long.
Qed.

(** ** The range 273.15 K to 800 K, 0 to 1200 kg/m^3 *)

Lemma reduced_T_range (T : R) :
  273.15 <= T <= 800 ->
  0 < T / Spec.T_ref /\ 0.8 <= 1 / (T / Spec.T_ref) <= 2.37.
Proof.
  intros HT. destruct (reduced_T T ltac:(lra)) as (Hs & Hx & _).
  split; [exact Hs|]. rewrite Hx. split.
  - apply Rmult_le_reg_r with (r := T); [lra|].
    unfold Rdiv. rewrite Rmult_assoc, Rinv_l by lra. lra.
  - apply Rmult_le_reg_r with (r := T); [lra|].
    unfold Rdiv. rewrite Rmult_assoc, Rinv_l by lra. lra.
Qed.

(** The dilute-gas factor stays away from zero. *)
Lemma Spec_f0_range (T : R) :
  273.15 <= T <= 800 -> 3.7 <= Spec.f0 (T / Spec.T_ref) <= 7.3.
Proof.
  intros HT. destruct (reduced_T_range T HT) as (Hs & Hx).
  rewrite Spec_f0_as_poly by lra.
  pose proof (f0_poly_incr (1 / (T / Spec.T_ref)) 0.8 ltac:(lra) ltac:(lra)
                ltac:(lra)) as Hlo.
  pose proof (f0_poly_incr 2.37 (1 / (T / Spec.T_ref)) ltac:(lra) ltac:(lra)
                ltac:(lra)) as Hhi.
  unfold f0_poly in Hlo at 1. unfold f0_poly in Hhi at 2. lra.
Qed.

Lemma mul_bound (a b A B : R) :
  - A <= a <= A -> - B <= b <= B -> - (A * B) <= a * b <= A * B.
Proof. intros Ha Hb. assert (0 <= A) by lra. assert (0 <= B) by lra. nra. Qed.

(** The coefficients of the residual factor up to [bar_rho = 3.73]. *)
Lemma Spec_g_abs (r : R) :
  0 <= r <= 3.73 ->
  -8.4 <= Spec.g r 0 <= 8.4 /\ -14.9 <= Spec.g r 1 <= 14.9 /\
  -12.1 <= Spec.g r 2 <= 12.1 /\ -13.2 <= Spec.g r 3 <= 13.2 /\
  -3.3 <= Spec.g r 4 <= 3.3 /\ -0.6 <= Spec.g r 5 <= 0.6.
Proof.
  intros Hr. unfold Spec.g, Spec.S_rho, Spec.Hc, Hij_tab. simpl.
  set (v := r - 1).
  assert (Hv : - (2.73) <= v <= 2.73) by (unfold v; lra).
  pose proof (mul_bound v v _ _ Hv Hv) as H2.
  pose proof (mul_bound v (v * v) _ _ Hv H2) as H3.
  pose proof (mul_bound v (v * (v * v)) _ _ Hv H3) as H4.
  pose proof (mul_bound v (v * (v * (v * v))) _ _ Hv H4) as H5.
  pose proof (mul_bound v (v * (v * (v * (v * v)))) _ _ Hv H5) as H6.
  rewrite !Rmult_1_r. repeat split; lra.
Qed.

Lemma f1_of_u_abs (r u : R) :
  0 <= r <= 3.73 -> -0.2 <= u <= 1.37 -> -101 <= f1_of_u r u <= 101.
Proof.
  intros Hr Hu.
  destruct (Spec_g_abs r Hr) as (Hg0 & Hg1 & Hg2 & Hg3 & Hg4 & Hg5).
  unfold f1_of_u. cbn [sum_f_R0 pow].
  generalize dependent (Spec.g r 0). generalize dependent (Spec.g r 1).
  generalize dependent (Spec.g r 2). generalize dependent (Spec.g r 3).
  generalize dependent (Spec.g r 4). generalize dependent (Spec.g r 5).
  intros g5 Hg5 g4 Hg4 g3 Hg3 g2 Hg2 g1 Hg1 g0 Hg0.
  rewrite !Rmult_1_r, Rmult_1_l.
  assert (Hu1 : - (1.37) <= u <= 1.37) by lra.
  pose proof (mul_bound u u _ _ Hu1 Hu1) as H2.
  pose proof (mul_bound u (u * u) _ _ Hu1 H2) as H3.
  pose proof (mul_bound u (u * (u * u)) _ _ Hu1 H3) as H4.
  pose proof (mul_bound u (u * (u * (u * u))) _ _ Hu1 H4) as H5.
  pose proof (mul_bound u g1 _ 14.9 Hu1 ltac:(lra)) as P1.
  pose proof (mul_bound (u * u) g2 _ 12.1 H2 ltac:(lra)) as P2.
  pose proof (mul_bound (u * (u * u)) g3 _ 13.2 H3 ltac:(lra)) as P3.
  pose proof (mul_bound (u * (u * (u * u))) g4 _ 3.3 H4 ltac:(lra)) as P4.
  pose proof (mul_bound (u * (u * (u * (u * u)))) g5 _ 0.6 H5 ltac:(lra)) as P5.
  lra.
Qed.

(** The argument of [std::exp] stays far inside the range on which the
    exponential of a double is a finite, non-zero double (about -708 to
    709). *)
Lemma exponent_range (T rho : R) :
  273.15 <= T <= 800 -> 0 <= rho <= 1200 ->
  -400 <= rho / Spec.rho_ref * Spec.f1 (T / Spec.T_ref) (rho / Spec.rho_ref)
       <= 400.
Proof.
  intros HT Hrho. destruct (reduced_T_range T HT) as (Hs & Hx).
  assert (Hr : 0 <= rho / Spec.rho_ref <= 3.73) by (unfold Spec.rho_ref; lra).
  rewrite Spec_f1_of_u.
  pose proof (f1_of_u_abs (rho / Spec.rho_ref) (1 / (T / Spec.T_ref) - 1) Hr
                ltac:(lra)) as Hf1.
  pose proof (mul_bound (rho / Spec.rho_ref)
                (f1_of_u (rho / Spec.rho_ref) (1 / (T / Spec.T_ref) - 1))
                3.73 101 ltac:(lra) ltac:(lra)).
  lra.
Qed.

(** ** The rate of increase in the dilute-gas region *)

Lemma Spec_viscosity_rate (rho T1 T2 : R) :
  0 <= rho <= 1 -> 273.15 <= T1 -> T1 <= T2 -> T2 <= 800 ->
  0 < Spec.viscosity T1 rho /\
  Spec.viscosity T1 rho * (1 + (T2 - T1) / 1600) <= Spec.viscosity T2 rho.
Proof.
  intros Hrho HT1 Hle HT2.
  destruct (reduced_T_range T1 ltac:(lra)) as (Hs1pos & Hx1).
  destruct (reduced_T_range T2 ltac:(lra)) as (Hs2pos & Hx2).
  pose proof (Spec_f0_range T1 ltac:(lra)) as Hf1.
  pose proof (Spec_f0_range T2 ltac:(lra)) as Hf2.
  split; [apply (Spec_viscosity_sign T1 rho); lra|].
  set (k := (T2 - T1) / 1600).
  assert (Hk : 0 <= k) by (unfold k; lra).
  assert (Hs21 : T2 / Spec.T_ref = T1 / Spec.T_ref + (T2 - T1) / Spec.T_ref)
    by (unfold Spec.T_ref; lra).
  assert (Hk2 : 2 * k * (T2 / Spec.T_ref) <= (T2 - T1) / Spec.T_ref).
  { unfold k, Spec.T_ref.
    replace (2 * ((T2 - T1) / 1600) * (T2 / 647.096))
      with ((T2 - T1) / 647.096 * (T2 / 800)) by lra.
    assert (0 <= (T2 - T1) / 647.096) by lra.
    assert (T2 / 800 <= 1) by lra. nra. }
  set (s1 := T1 / Spec.T_ref) in *. set (s2 := T2 / Spec.T_ref) in *.
  assert (Hs12 : s1 <= s2) by (unfold s1, s2, Spec.T_ref; lra).
  assert (Hx12 : 1 / s2 <= 1 / s1).
  { unfold Rdiv. rewrite !Rmult_1_l. apply Rinv_le_contravar; lra. }
  assert (Hf12 : Spec.f0 s2 <= Spec.f0 s1).
  { rewrite !Spec_f0_as_poly by lra. apply f0_poly_incr; lra. }
  (* the square roots *)
  set (a := sqrt s1). set (b := sqrt s2).
  assert (Ha : 0 < a) by (apply sqrt_lt_R0; exact Hs1pos).
  assert (Hab : a <= b) by (apply sqrt_le_1; lra).
  assert (Haa : a * a = s1) by (apply sqrt_sqrt; lra).
  assert (Hbb : b * b = s2) by (apply sqrt_sqrt; lra).
  assert (Hroot : a * (1 + k) <= b).
  { assert (H1 : 2 * k * (b * b) <= b * b - a * a)
      by (rewrite Hbb, Haa; lra).
    assert (H2 : 0 <= (b - a) * (2 * (b * b) - a * (a + b))).
    { apply Rmult_le_pos; [lra|].
      assert (0 <= (b - a) * (b + a)) by (apply Rmult_le_pos; lra).
      assert (0 <= b * (b - a)) by (apply Rmult_le_pos; lra).
      lra. }
    assert (Ha1 : a * (2 * k * (b * b)) <= a * (b * b - a * a))
      by (apply Rmult_le_compat_l; lra).
    assert (H3 : 2 * (b * b) * (a * (1 + k)) <= 2 * (b * b) * b) by lra.
    apply Rmult_le_reg_l with (r := 2 * (b * b)); [|exact H3].
    assert (0 < b * b) by (apply Rmult_lt_0_compat; lra). lra. }
  (* the dilute-gas term *)
  assert (Hmu0 : 0 < Spec.mu0 s1 /\ Spec.mu0 s1 * (1 + k) <= Spec.mu0 s2).
  { unfold Spec.mu0. fold a b. split.
    - apply Rdiv_lt_0_compat; lra.
    - apply Rmult_le_reg_r with (r := Spec.f0 s1 * Spec.f0 s2); [nra|].
      replace (100 * a / Spec.f0 s1 * (1 + k) * (Spec.f0 s1 * Spec.f0 s2))
        with (100 * (a * (1 + k)) * Spec.f0 s2) by (field; lra).
      replace (100 * b / Spec.f0 s2 * (Spec.f0 s1 * Spec.f0 s2))
        with (100 * b * Spec.f0 s1) by (field; lra).
      assert (0 <= a * (1 + k)) by nra. nra. }
  (* the residual multiplier *)
  set (r := rho / Spec.rho_ref).
  assert (Hr : 0 <= r <= 0.01) by (unfold r, Spec.rho_ref; lra).
  assert (Hf1le : Spec.f1 s1 r <= Spec.f1 s2 r).
  { rewrite !Spec_f1_of_u. apply f1_of_u_antitone; lra. }
  assert (Hexp : 0 < exp (r * Spec.f1 s1 r) <= exp (r * Spec.f1 s2 r)).
  { split; [apply exp_pos|].
    destruct (Rle_lt_or_eq_dec _ _ Hf1le) as [Hlt'|Heq].
    - destruct (proj1 Hr) as [Hrpos|Hr0].
      + left. apply exp_increasing. nra.
      + rewrite <- Hr0, !Rmult_0_l. lra.
    - rewrite Heq. lra. }
  unfold Spec.viscosity. fold s1 s2 r. unfold Spec.mu_ref.
  destruct Hmu0 as [Hm1 Hm2]. destruct Hexp as [He1 He2].
  set (E1 := exp (r * Spec.f1 s1 r)) in *.
  set (E2 := exp (r * Spec.f1 s2 r)) in *.
  assert (0 <= Spec.mu0 s1 * (1 + k)) by nra.
  assert (Spec.mu0 s1 * (1 + k) * E1 <= Spec.mu0 s2 * E2) by nra.
  nra.
Qed.

(** ** The double next to the pole of the dilute-gas term *)

(** At the real number that the double [134.12190397427455] stands for,
    the dilute-gas factor of the formulation is tiny but not zero. *)
Lemma Spec_f0_at_T_pole :
  -1e-14 < Spec.f0 (B64.T_pole_R / Spec.T_ref) < 0.
Proof.
  unfold B64.T_pole_R, Spec.T_ref.
  replace (4718994974693471 / 35184372088832 / 647.096)
    with (1 / (647.096 * 35184372088832 / 4718994974693471)) by (field; lra).
  rewrite Spec_f0_poly by lra. unfold f0_poly. lra.
Qed.

(** * The stated properties on the working range *)

(** ** The derivatives *)





(** ** The closed form *)

(** C3 (amended).  For every [T] from 273.15 K to 800 K and every [rho] from
    0 to 1200 kg/m^3, [getValue T rho] is the closed form
    [100 * sqrt barT / f0 barT * exp (bar_rho * f1 barT bar_rho) * 1e-6]
    with [barT = T / 647.096], [bar_rho = rho / 322.0], [f0] the sum of
    [H[i] / barT^i] for [i = 0..3] and [f1] the double sum of
    [(1/barT - 1)^i * H_ij[i][j] * (bar_rho - 1)^j] (in exact arithmetic).
    On this range the divisor [f0] lies between 3.7 and 7.3 and the argument
    of the exponential between -400 and 400, so that neither the division
    nor [std::exp] leaves the finite doubles. *)
Theorem getValue_closed_form (T rho : R) :
  273.15 <= T <= 800 -> 0 <= rho <= 1200 ->
  getValue (Fin T) (Fin rho) =
    Some (Fin (100 * sqrt (T / 647.096) / Spec.f0 (T / 647.096) *
               exp (rho / 322.0 * Spec.f1 (T / 647.096) (rho / 322.0)) *
               1e-6)) /\
  3.7 <= Spec.f0 (T / 647.096) <= 7.3 /\
  -400 <= rho / 322.0 * Spec.f1 (T / 647.096) (rho / 322.0) <= 400.
Proof.
  intros HT Hrho. pose proof (Spec_f0_range T HT) as Hf0.
  pose proof (exponent_range T rho HT Hrho) as He.
  repeat split; try apply Hf0; try apply He.
  apply getValue_Fin; unfold Spec.T_ref in *; lra.
Qed.

Lemma getValue_closed_form_witness :
  getValue (Fin 647.096) (Fin 998) =
    Some (Fin (100 * sqrt (647.096 / 647.096) / Spec.f0 (647.096 / 647.096) *
               exp (998 / 322.0 * Spec.f1 (647.096 / 647.096) (998 / 322.0)) *
               1e-6)) /\
  3.7 <= Spec.f0 (647.096 / 647.096) <= 7.3 /\
  -400 <= 998 / 322.0 * Spec.f1 (647.096 / 647.096) (998 / 322.0) <= 400.
Proof. apply (getValue_closed_form 647.096 998); lra. Defined.

(** ** Monotonicity in the dilute-gas region *)

(** C7 (amended).  On the region [0 <= rho <= 1 kg/m^3],
    [273.15 K <= T <= 800 K], for two temperatures at least [1e-6] K apart
    the viscosity is strictly increasing in the temperature at fixed
    density: [getValue T2 rho] exceeds [getValue T1 rho] by the factor
    [1 + (T2 - T1) / 1600] at least (in exact arithmetic), a relative
    increase of [6e-10] or more, well above the rounding of a double. *)
Theorem getValue_increasing_in_T (rho T1 T2 : R) :
  0 <= rho <= 1 -> 273.15 <= T1 -> T1 + 1e-6 <= T2 -> T2 <= 800 ->
  exists v1 v2 : R,
    getValue (Fin T1) (Fin rho) = Some (Fin v1) /\
    getValue (Fin T2) (Fin rho) = Some (Fin v2) /\
    0 < v1 /\ v1 * (1 + (T2 - T1) / 1600) <= v2 /\ v1 < v2.
Proof.
  intros Hrho HT1 Hgap HT2.
  destruct (Spec_viscosity_rate rho T1 T2 Hrho HT1 ltac:(lra) HT2)
    as (Hpos & Hrate).
  pose proof (Spec_f0_range T1 ltac:(lra)) as Hf1.
  pose proof (Spec_f0_range T2 ltac:(lra)) as Hf2.
  exists (Spec.viscosity T1 rho), (Spec.viscosity T2 rho).
  repeat split.
  - apply getValue_Fin; lra.
  - apply getValue_Fin; lra.
  - exact Hpos.
  - exact Hrate.
  - assert (0 < (T2 - T1) / 1600) by lra. nra.
Qed.

Lemma getValue_increasing_in_T_witness :
  exists v1 v2 : R,
    getValue (Fin 300) (Fin 0.5) = Some (Fin v1) /\
    getValue (Fin 400) (Fin 0.5) = Some (Fin v2) /\
    0 < v1 /\ v1 * (1 + (400 - 300) / 1600) <= v2 /\ v1 < v2.
Proof. apply (getValue_increasing_in_T 0.5 300 400); lra. Defined.

(** * Further properties on bounded ranges *)

(** X4.  On the whole working range, [T] from 273.15 K to 800 K and [rho]
    from 0 to 1200 kg/m^3, the viscosity returned by [getValue] is a finite,
    strictly positive number and the two derivatives are finite. *)
Theorem entry_points_finite_on_range (T rho : R) :
  273.15 <= T <= 800 -> 0 <= rho <= 1200 ->
  exists v dT dRho : R,
    getValue (Fin T) (Fin rho) = Some (Fin v) /\ 0 < v /\
    getdValuedT (Fin T) (Fin rho) = Some (Fin dT) /\
    getdValuedRho (Fin T) (Fin rho) = Some (Fin dRho).
Proof.
  intros HT Hrho. pose proof (Spec_f0_range T HT) as Hf0.
  exists (Spec.viscosity T rho), (Spec.d_viscosity_dT T rho),
         (Spec.d_viscosity_dRho T rho).
  repeat split.
  - apply getValue_Fin; lra.
  - apply (Spec_viscosity_sign T rho); lra.
  - apply getdValuedT_Fin; unfold Spec.T_ref in *; lra.
  - apply getdValuedRho_Fin; unfold Spec.T_ref in *; lra.
Qed.

Lemma entry_points_finite_on_range_witness :
  exists v dT dRho : R,
    getValue (Fin 298.15) (Fin 998) = Some (Fin v) /\ 0 < v /\
    getdValuedT (Fin 298.15) (Fin 998) = Some (Fin dT) /\
    getdValuedRho (Fin 298.15) (Fin 998) = Some (Fin dRho).
Proof. apply (entry_points_finite_on_range 298.15 998); lra. Defined.

(** X5.  Below the pole of the dilute-gas term nothing is rejected either:
    for every [T] from 100 K to 129 K and every density from 0 to
    1 kg/m^3, [getValue] returns a finite, strictly negative viscosity. *)
Theorem getValue_negative_to_129 (T rho : R) :
  100 <= T <= 129 -> 0 <= rho <= 1 ->
  exists v : R, getValue (Fin T) (Fin rho) = Some (Fin v) /\ v < 0.
Proof.
  intros HT Hrho.
  pose proof (Spec_f0_neg_to_129 T ltac:(lra) ltac:(lra)) as Hf0.
  exists (Spec.viscosity T rho). split.
  - apply getValue_Fin; lra.
  - apply (Spec_viscosity_sign T rho); lra.
Qed.

Lemma getValue_negative_to_129_witness :
  exists v : R, getValue (Fin 100) (Fin 1) = Some (Fin v) /\ v < 0.
Proof. apply (getValue_negative_to_129 100 1); lra. Defined.

(** ** How the three entry points relate *)





(** ** Laws of binary64 arithmetic *)

Module B64Facts.
Import PrimFloat SpecFloat FloatOps FloatAxioms.
Local Open Scope float_scope.

Lemma SF_nan (x : float) : Prim2SF x = S754_nan -> x = nan.
Proof. intros H. apply Prim2SF_inj. now rewrite H. Qed.

Lemma SF_infinity (x : float) (s : bool) :
  Prim2SF x = S754_infinity s -> x = if s then neg_infinity else infinity.
Proof. intros H. apply Prim2SF_inj. rewrite H. now destruct s. Qed.

Lemma SF_zero (x : float) (s : bool) :
  Prim2SF x = S754_zero s -> x = if s then (-0) else 0.
Proof. intros H. apply Prim2SF_inj. rewrite H. now destruct s. Qed.

Lemma finite_false_iff (x : float) :
  B64.finite x = false <-> x = infinity \/ x = neg_infinity \/ x = nan.
Proof.
  unfold B64.finite. split.
  - destruct (Prim2SF x) as [s|s| |s m e] eqn:H; try discriminate; intros _.
    + apply SF_infinity in H. destruct s; auto.
    + apply SF_nan in H. auto.
  - intros [-> | [-> | ->]]; reflexivity.
Qed.

Lemma mul_nan_l (y : float) : nan * y = nan.
Proof. apply Prim2SF_inj. rewrite mul_spec. reflexivity. Qed.

Lemma mul_nan_r (x : float) : x * nan = nan.
Proof. apply Prim2SF_inj. rewrite mul_spec. cbn. now destruct (Prim2SF x). Qed.

Lemma add_nan_l (y : float) : nan + y = nan.
Proof. apply Prim2SF_inj. rewrite add_spec. reflexivity. Qed.

Lemma add_nan_r (x : float) : x + nan = nan.
Proof. apply Prim2SF_inj. rewrite add_spec. cbn. now destruct (Prim2SF x). Qed.

Lemma sub_nan_l (y : float) : nan - y = nan.
Proof. apply Prim2SF_inj. rewrite sub_spec. reflexivity. Qed.

Lemma sub_nan_r (x : float) : x - nan = nan.
Proof. apply Prim2SF_inj. rewrite sub_spec. cbn. now destruct (Prim2SF x). Qed.

Lemma div_nan_l (y : float) : nan / y = nan.
Proof. apply Prim2SF_inj. rewrite div_spec. reflexivity. Qed.

Lemma div_nan_r (x : float) : x / nan = nan.
Proof. apply Prim2SF_inj. rewrite div_spec. cbn. now destruct (Prim2SF x). Qed.

Lemma finite_mul_l (x y : float) :
  B64.finite x = false -> B64.finite (x * y) = false.
Proof.
  unfold B64.finite. rewrite mul_spec.
  destruct (Prim2SF x), (Prim2SF y); cbn; congruence.
Qed.

Lemma finite_mul_r (x y : float) :
  B64.finite y = false -> B64.finite (x * y) = false.
Proof.
  unfold B64.finite. rewrite mul_spec.
  destruct (Prim2SF x), (Prim2SF y); cbn; congruence.
Qed.

Lemma finite_div_l (x y : float) :
  B64.finite x = false -> B64.finite (x / y) = false.
Proof.
  unfold B64.finite. rewrite div_spec.
  destruct (Prim2SF x), (Prim2SF y); cbn; congruence.
Qed.

Lemma finite_add_l (x y : float) :
  B64.finite x = false -> B64.finite (x + y) = false.
Proof.
  unfold B64.finite. rewrite add_spec.
  destruct (Prim2SF x) as [[]|[]| |[]], (Prim2SF y) as [[]|[]| |[]];
    cbn; congruence.
Qed.

Lemma finite_add_r (x y : float) :
  B64.finite y = false -> B64.finite (x + y) = false.
Proof.
  unfold B64.finite. rewrite add_spec.
  destruct (Prim2SF x) as [[]|[]| |[]], (Prim2SF y) as [[]|[]| |[]];
    cbn; congruence.
Qed.

(** [0 * x] is a zero for every finite [x]. *)
Lemma zero_mul_finite (x : float) :
  B64.finite x = true -> 0 * x = 0 \/ 0 * x = -0.
Proof.
  unfold B64.finite. intros H.
  assert (E : Prim2SF (0 * x) = SF64mul (Prim2SF 0) (Prim2SF x))
    by apply mul_spec.
  destruct (Prim2SF x) as [s|s| |s m e]; try discriminate;
    cbn in E; apply SF_zero in E; destruct s; auto.
Qed.

Lemma exp_spec_exp_series : B64.exp_spec B64.exp_series.
Proof. repeat split; vm_compute; reflexivity. Qed.

Ltac nan_simpl :=
  repeat first
    [ rewrite mul_nan_l | rewrite mul_nan_r
    | rewrite add_nan_l | rewrite add_nan_r
    | rewrite sub_nan_l | rewrite sub_nan_r
    | rewrite div_nan_l | rewrite div_nan_r ].

(** A non-finite temperature. *)
Lemma non_finite_T (exp : float -> float) (T rho : float) :
  B64.finite T = false ->
  exists v1 v2 v3,
    B64.getValue exp T rho = Some v1 /\
    B64.getdValuedT exp T rho = Some v2 /\
    B64.getdValuedRho exp T rho = Some v3 /\
    B64.finite v1 = false /\ B64.finite v2 = false /\ B64.finite v3 = false.
Proof.
  intros H. apply finite_false_iff in H.
  destruct H as [-> | [-> | ->]].
  - do 3 eexists. split; [vm_compute; reflexivity|].
    split; [vm_compute; reflexivity|]. split; [vm_compute; reflexivity|].
    split; [|split].
    + apply finite_mul_l, finite_mul_l. reflexivity.
    + nan_simpl. reflexivity.
    + apply finite_div_l, finite_mul_r, finite_mul_l, finite_mul_l.
      reflexivity.
  - do 3 eexists. split; [vm_compute; reflexivity|].
    split; [vm_compute; reflexivity|]. split; [vm_compute; reflexivity|].
    split; [|split]; nan_simpl; reflexivity.
  - do 3 eexists. split; [vm_compute; reflexivity|].
    split; [vm_compute; reflexivity|]. split; [vm_compute; reflexivity|].
    split; [|split]; nan_simpl; reflexivity.
Qed.

(** A non-finite density: every row of [Hij] has a zero entry, and
    [0 * infinity] is a NaN. *)
Lemma non_finite_rho (exp : float -> float) (T rho : float) :
  B64.exp_spec exp ->
  B64.finite rho = false ->
  B64.getValue exp T rho = Some nan /\
  B64.getdValuedT exp T rho = Some nan /\
  B64.getdValuedRho exp T rho = Some nan.
Proof.
  intros (_ & _ & Hn) H. pose proof Hn as Hn'. vm_compute in Hn'.
  apply finite_false_iff in H.
  destruct H as [-> | [-> | ->]].
  - split; [|split]; vm_compute; nan_simpl; rewrite ?Hn, ?Hn'; nan_simpl;
      reflexivity.
  - split; [|split]; vm_compute; nan_simpl; rewrite ?Hn, ?Hn'; nan_simpl;
      reflexivity.
  - split; [|split]; vm_compute; nan_simpl; rewrite ?Hn, ?Hn'; nan_simpl;
      reflexivity.
Qed.

(** Dividing a double that is zero or negative by a positive finite double
    gives a zero, or a double whose square root is a NaN. *)
Lemma div_nonpositive (T c : float) (m : positive) (e : Z) :
  (T <=? 0) = true -> Prim2SF c = S754_finite false m e ->
  T / c = 0 \/ T / c = -0 \/ sqrt (T / c) = nan.
Proof.
  intros HT Hc. rewrite leb_spec in HT.
  assert (E : Prim2SF (T / c) = SF64div (Prim2SF T) (Prim2SF c))
    by apply div_spec.
  rewrite Hc in E.
  assert (Hs : Prim2SF (sqrt (T / c)) = SF64sqrt (Prim2SF (T / c)))
    by apply sqrt_spec.
  destruct (Prim2SF T) as [s|s| |s mT eT]; cbn in HT.
  - cbn in E. apply SF_zero in E. destruct s; auto.
  - destruct s; [|discriminate]. cbn in E. rewrite E in Hs.
    right. right. now apply SF_nan.
  - discriminate.
  - destruct s; [|discriminate]. right.
    unfold SF64div, SFdiv in E.
    destruct (SFdiv_core_binary prec emax (Z.pos mT) eT (Z.pos m) e)
      as [[mz ez] lz].
    unfold binary_round_aux in E.
    destruct (shr_fexp prec emax mz ez lz) as [mrs' e'].
    destruct (shr_fexp prec emax _ e' loc_Exact) as [mrs'' e''].
    cbn [xorb] in E.
    destruct (shr_m mrs'') as [|p|p].
    + apply SF_zero in E. auto.
    + right. destruct (Z.leb e'' (Z.sub emax prec));
        rewrite E in Hs; now apply SF_nan.
    + right. rewrite E in Hs. now apply SF_nan.
Qed.

(** A temperature that is zero or negative: the square root or the
    dilute-gas factor is a NaN. *)
Lemma nonpositive_T (exp : float -> float) (T rho : float) :
  (T <=? 0) = true ->
  B64.getValue exp T rho = Some nan /\
  B64.getdValuedT exp T rho = Some nan /\
  B64.getdValuedRho exp T rho = Some nan.
Proof.
  intros HT.
  assert (Hc : Prim2SF B64._ref_T = S754_finite false 5691916610298708 (-43))
    by reflexivity.
  unfold B64.getValue, B64.getdValuedT, B64.getdValuedRho. cbv zeta.
  destruct (div_nonpositive T B64._ref_T _ _ HT Hc) as [E | [E | E]].
  - rewrite E. repeat split; vm_compute; nan_simpl; reflexivity.
  - rewrite E. repeat split; vm_compute; nan_simpl; reflexivity.
  - set (b := T / B64._ref_T) in *. clearbody b.
    repeat split; vm_compute; rewrite E; nan_simpl; reflexivity.
Qed.

End B64Facts.

(** ** The explicit memory: every call restores it *)

Module MemFacts.
Import PrimFloat Mem.
Local Open Scope float_scope.

Lemma vec_get_last {A : Type} (l : list A) (v : A) :
  vec_get (l ++ [v]) (length l) = Some v.
Proof.
  unfold vec_get. rewrite nth_error_app2 by lia.
  now rewrite Nat.sub_diag.
Qed.

Lemma vec_get_under {A : Type} (l : list A) (v w : A) :
  vec_get ((l ++ [v]) ++ [w]) (length l) = Some v.
Proof.
  unfold vec_get. rewrite nth_error_app1 by (rewrite length_app; simpl; lia).
  apply vec_get_last.
Qed.

Lemma vec_set_last {A : Type} (l : list A) (v v' : A) :
  vec_set (l ++ [v]) (length l) v' = Some (l ++ [v']).
Proof. induction l as [|y l IH]; simpl; [reflexivity|now rewrite IH]. Qed.

Lemma vec_load_top (m : memory) (v : list float) (i : nat) :
  vec_load (length (vectors m)) i (push m v) = lift (vec_get v i) (push m v).
Proof.
  unfold vec_load, push, set_vectors. cbn [vectors].
  now rewrite vec_get_last.
Qed.

Lemma vec_load_under (m : memory) (v w : list float) (i : nat) :
  vec_load (length (vectors m)) i (push (push m v) w) =
  lift (vec_get v i) (push (push m v) w).
Proof.
  unfold vec_load, push, set_vectors. cbn [vectors].
  now rewrite vec_get_under.
Qed.

Lemma vec_store_top (m : memory) (v : list float) (i : nat) (x : float) :
  vec_store (length (vectors m)) i x (push m v) =
  match vec_set v i x with
  | Some v' => Some (tt, push m v')
  | None => None
  end.
Proof.
  unfold vec_store, push, set_vectors. cbn [vectors static_Hi static_Hij].
  rewrite vec_get_last. destruct (vec_set v i x); [|reflexivity].
  now rewrite vec_set_last.
Qed.

Lemma vec_free_top (m : memory) (v : list float) :
  vec_free (length (vectors m)) (push m v) = Some (tt, m).
Proof.
  unfold vec_free, push, set_vectors. cbn [vectors static_Hi static_Hij].
  rewrite length_app, Nat.add_comm. cbn [length Nat.add].
  rewrite Nat.eqb_refl, removelast_last. now destruct m.
Qed.

(** A loop whose body only reads the memory. *)
Lemma for_loopS_lift {S : Type} (body : nat -> S -> St S)
    (pbody : nat -> S -> M S) (m : memory) :
  (forall i s, body i s m = lift (pbody i s) m) ->
  forall n i s, for_loopS i n body s m = lift (for_loop i n pbody s) m.
Proof.
  intros Hb. induction n as [|n IH]; intros i s; [reflexivity|].
  cbn [for_loopS for_loop]. unfold bindS, bind. rewrite Hb.
  destruct (pbody i s) as [s'|]; [|reflexivity]. cbn [lift]. apply IH.
Qed.

(** A loop whose body updates the vector constructed last. *)
Lemma for_loopS_top (body : nat -> unit -> St unit)
    (pbody : nat -> list float -> M (list float)) (m : memory) :
  (forall i v, body i tt (push m v) =
               match pbody i v with
               | Some v' => Some (tt, push m v')
               | None => None
               end) ->
  forall n i v,
    for_loopS i n body tt (push m v) =
    match for_loop i n pbody v with
    | Some v' => Some (tt, push m v')
    | None => None
    end.
Proof.
  intros Hb. induction n as [|n IH]; intros i v; [reflexivity|].
  cbn [for_loopS for_loop]. unfold bindS, bind. rewrite Hb.
  destruct (pbody i v) as [v'|]; [|reflexivity]. apply IH.
Qed.

Lemma computeBarMu0Factor_lift (barT : float) (m : memory) :
  tables_ok m ->
  computeBarMu0Factor barT m = lift (B64.computeBarMu0Factor barT) m.
Proof.
  intros [HHi _]. unfold computeBarMu0Factor, B64.computeBarMu0Factor,
    for_rangeS, for_range, bindS, bind.
  rewrite for_loopS_lift with
    (pbody := fun i '(sum_val, barT_i) =>
                h <- vec_get B64.Hi i ;;
                ret (sum_val + h / barT_i, barT_i * barT)).
  - destruct (for_loop _ _ _ _) as [[s b]|]; reflexivity.
  - intros i [s b]. unfold bindS, bind, Hi_load. rewrite HHi.
    destruct (vec_get B64.Hi i); reflexivity.
Qed.

Lemma computeSeriesFactorTForMu1_push (barT : float) (m : memory) :
  computeSeriesFactorTForMu1 barT m =
  match B64.computeSeriesFactorTForMu1 barT with
  | Some v => Some (length (vectors m), push m v)
  | None => None
  end.
Proof.
  unfold computeSeriesFactorTForMu1, B64.computeSeriesFactorTForMu1,
    for_rangeS, for_range.
  unfold bindS at 1. unfold vec_alloc.
  unfold bindS at 1. rewrite vec_store_top.
  unfold bind at 1.
  destruct (vec_set (B64.vec_new 6) 0 1) as [v0|]; [|reflexivity].
  cbv zeta. unfold bindS at 1.
  rewrite for_loopS_top with
    (pbody := fun i series_factorT =>
                prev <- vec_get series_factorT (i - 1) ;;
                vec_set series_factorT i (prev * (1 / barT - 1.0))).
  - destruct (for_loop _ _ _ _); reflexivity.
  - intros i v. unfold bindS, bind. rewrite vec_load_top.
    destruct (vec_get v (i - 1)); [|reflexivity]. cbn [lift].
    apply vec_store_top.
Qed.

Lemma computeSeriesFactorRhoForMu1_push (bar_rho : float) (m : memory) :
  computeSeriesFactorRhoForMu1 bar_rho m =
  match B64.computeSeriesFactorRhoForMu1 bar_rho with
  | Some v => Some (length (vectors m), push m v)
  | None => None
  end.
Proof.
  unfold computeSeriesFactorRhoForMu1, B64.computeSeriesFactorRhoForMu1,
    for_rangeS, for_range.
  unfold bindS at 1. unfold vec_alloc.
  unfold bindS at 1. rewrite vec_store_top.
  unfold bind at 1.
  destruct (vec_set (B64.vec_new 7) 0 1) as [v0|]; [|reflexivity].
  unfold bindS at 1.
  rewrite for_loopS_top with
    (pbody := fun i series_factorRho =>
                prev <- vec_get series_factorRho (i - 1) ;;
                vec_set series_factorRho i (prev * (bar_rho - 1.0))).
  - destruct (for_loop _ _ _ _); reflexivity.
  - intros i v. unfold bindS, bind. rewrite vec_load_top.
    destruct (vec_get v (i - 1)); [|reflexivity]. cbn [lift].
    apply vec_store_top.
Qed.

Section TwoVectors.
Variables (m : memory) (vT vRho : list float).
Hypothesis Hm : tables_ok m.

Lemma Hij_load_lift (i j : nat) :
  Hij_load i j (push (push m vT) vRho) =
  lift (B64.Hij_get i j) (push (push m vT) vRho).
Proof. destruct Hm as [_ H]. unfold Hij_load, B64.Hij_get. cbn. now rewrite H. Qed.

Lemma Hi_load_lift (i : nat) (m' : memory) :
  tables_ok m' -> Hi_load i m' = lift (vec_get B64.Hi i) m'.
Proof. intros [H _]. unfold Hi_load. now rewrite H. Qed.

Lemma load_T (i : nat) :
  vec_load (length (vectors m)) i (push (push m vT) vRho) =
  lift (vec_get vT i) (push (push m vT) vRho).
Proof. apply vec_load_under. Qed.

Lemma load_Rho (j : nat) :
  vec_load (length (vectors (push m vT))) j (push (push m vT) vRho) =
  lift (vec_get vRho j) (push (push m vT) vRho).
Proof. apply vec_load_top. Qed.

Lemma bindS_lift {A B : Type} (c : St A) (pc : M A) (k : A -> St B)
    (pk : A -> M B) (m' : memory) :
  c m' = lift pc m' -> (forall a, k a m' = lift (pk a) m') ->
  bindS c k m' = lift (bind pc pk) m'.
Proof.
  intros Hc Hk. unfold bindS, bind. rewrite Hc.
  destruct pc as [a|]; [apply Hk|reflexivity].
Qed.

Lemma retS_lift {A : Type} (a : A) (m' : memory) : retS a m' = lift (ret a) m'.
Proof. reflexivity. Qed.

Lemma for_rangeS_lift {S : Type} (body : nat -> S -> St S)
    (pbody : nat -> S -> M S) (m' : memory) (lo hi : nat) (s : S) :
  (forall i s, body i s m' = lift (pbody i s) m') ->
  for_rangeS lo hi body s m' = lift (for_range lo hi pbody s) m'.
Proof. intros H. unfold for_rangeS, for_range. now apply for_loopS_lift. Qed.

Lemma computeBarMu1Factor_lift :
  computeBarMu1Factor (length (vectors m)) (length (vectors (push m vT)))
    (push (push m vT) vRho) =
  lift (B64.computeBarMu1Factor vT vRho) (push (push m vT) vRho).
Proof.
  unfold computeBarMu1Factor, B64.computeBarMu1Factor.
  apply for_rangeS_lift. intros i s.
  apply bindS_lift.
  - apply for_rangeS_lift. intros j s'.
    apply bindS_lift; [apply Hij_load_lift|]. intros h.
    apply bindS_lift; [apply load_Rho|]. intros r. apply retS_lift.
  - intros sj. apply bindS_lift; [apply load_T|]. intros t. apply retS_lift.
Qed.

End TwoVectors.

Lemma getValue_lift (exp : float -> float) (T rho : float) (m : memory) :
  tables_ok m -> getValue exp T rho m = lift (B64.getValue exp T rho) m.
Proof.
  intros Hm. unfold getValue, B64.getValue. cbv zeta.
  unfold bindS at 1. rewrite computeBarMu0Factor_lift by exact Hm.
  destruct (B64.computeBarMu0Factor _) as [f0|]; [|reflexivity]. cbn [bind lift].
  unfold bindS at 1. rewrite computeSeriesFactorTForMu1_push.
  destruct (B64.computeSeriesFactorTForMu1 _) as [vT|]; [|reflexivity]. cbn [bind lift].
  unfold bindS at 1. rewrite computeSeriesFactorRhoForMu1_push.
  destruct (B64.computeSeriesFactorRhoForMu1 _) as [vRho|]; [|reflexivity]. cbn [bind lift].
  unfold bindS at 1. rewrite computeBarMu1Factor_lift by exact Hm.
  destruct (B64.computeBarMu1Factor vT vRho) as [f1|]; [|reflexivity]. cbn [bind lift].
  unfold bindS. now rewrite !vec_free_top.
Qed.

Lemma computedBarMu_dbarRho_lift (exp : float -> float) (barT bar_rho : float)
    (m : memory) :
  tables_ok m ->
  computedBarMu_dbarRho exp barT bar_rho m =
  lift (B64.computedBarMu_dbarRho exp barT bar_rho) m.
Proof.
  intros Hm. unfold computedBarMu_dbarRho, B64.computedBarMu_dbarRho.
  unfold bindS at 1. rewrite computeSeriesFactorTForMu1_push.
  destruct (B64.computeSeriesFactorTForMu1 _) as [vT|]; [|reflexivity]. cbn [bind lift].
  unfold bindS at 1. rewrite computeSeriesFactorRhoForMu1_push.
  destruct (B64.computeSeriesFactorRhoForMu1 _) as [vRho|]; [|reflexivity]. cbn [bind lift].
  unfold bindS at 1.
  rewrite for_rangeS_lift with
    (pbody := fun i dmu1_factor_dbar_rho =>
       sum_val_j <-
         for_range 1 7
           (fun j sum_val_j =>
              h <- B64.Hij_get i j ;;
              r <- vec_get vRho (j - 1) ;;
              ret (sum_val_j + B64.of_int j * h * r))
           0 ;;
       t <- vec_get vT i ;;
       ret (dmu1_factor_dbar_rho + t * sum_val_j)).
  2:{ intros i s. apply bindS_lift.
      - apply for_rangeS_lift. intros j s'.
        apply bindS_lift; [now apply Hij_load_lift|]. intros h.
        apply bindS_lift; [apply load_Rho|]. intros r. apply retS_lift.
      - intros sj. apply bindS_lift; [apply load_T|]. intros t.
        apply retS_lift. }
  destruct (for_range 0 6 _ _) as [d|]; [|reflexivity]. cbn [bind lift].
  unfold bindS at 1.
  rewrite computeBarMu0Factor_lift by exact Hm.
  destruct (B64.computeBarMu0Factor _) as [f0|]; [|reflexivity]. cbn [bind lift].
  cbv zeta. unfold bindS at 1. rewrite computeBarMu1Factor_lift by exact Hm.
  destruct (B64.computeBarMu1Factor vT vRho) as [f1|]; [|reflexivity]. cbn [bind lift].
  unfold bindS. now rewrite !vec_free_top.
Qed.

Lemma computedBarMu_dbarT_lift (exp : float -> float) (barT bar_rho : float)
    (m : memory) :
  tables_ok m ->
  computedBarMu_dbarT exp barT bar_rho m =
  lift (B64.computedBarMu_dbarT exp barT bar_rho) m.
Proof.
  intros Hm. unfold computedBarMu_dbarT, B64.computedBarMu_dbarT.
  unfold bindS at 1. rewrite computeBarMu0Factor_lift by exact Hm.
  destruct (B64.computeBarMu0Factor _) as [f0|]; [|reflexivity]. cbn [bind lift].
  cbv zeta. unfold bindS at 1.
  rewrite for_rangeS_lift with
    (pbody := fun i '(dmu0_factor_dbarT, barT_i) =>
       h <- vec_get B64.Hi i ;;
       ret (dmu0_factor_dbarT - B64.of_int i * (h / barT_i), barT_i * barT)).
  2:{ intros i [s b]. apply bindS_lift; [now apply Hi_load_lift|].
      intros h. apply retS_lift. }
  destruct (for_range 1 4 _ _) as [[d0 b]|]; [|reflexivity]. cbn [bind lift].
  unfold bindS at 1. rewrite computeSeriesFactorTForMu1_push.
  destruct (B64.computeSeriesFactorTForMu1 _) as [vT|]; [|reflexivity]. cbn [bind lift].
  unfold bindS at 1. rewrite computeSeriesFactorRhoForMu1_push.
  destruct (B64.computeSeriesFactorRhoForMu1 _) as [vRho|]; [|reflexivity]. cbn [bind lift].
  unfold bindS at 1.
  rewrite for_rangeS_lift with
    (pbody := fun i dmu1_factor_dbarT =>
       sum_val_j <-
         for_range 0 7
           (fun j sum_val_j =>
              h <- B64.Hij_get i j ;;
              r <- vec_get vRho j ;;
              ret (sum_val_j + h * r))
           0 ;;
       t <- vec_get vT (i - 1) ;;
       ret (dmu1_factor_dbarT -
            B64.of_int i * t * sum_val_j / (barT * barT))).
  2:{ intros i s. apply bindS_lift.
      - apply for_rangeS_lift. intros j s'.
        apply bindS_lift; [now apply Hij_load_lift|]. intros h.
        apply bindS_lift; [apply load_Rho|]. intros r. apply retS_lift.
      - intros sj. apply bindS_lift; [apply load_T|]. intros t.
        apply retS_lift. }
  destruct (for_range 1 6 _ _) as [d1|]; [|reflexivity]. cbn [bind lift].
  unfold bindS at 1. rewrite computeBarMu1Factor_lift by exact Hm.
  destruct (B64.computeBarMu1Factor vT vRho) as [f1|]; [|reflexivity]. cbn [bind lift].
  unfold bindS. now rewrite !vec_free_top.
Qed.

Lemma run_lift (exp : float -> float) (c : call) (m : memory) :
  tables_ok m -> run exp c m = lift (result exp c) m.
Proof.
  intros Hm. destruct c as [T rho|T rho|T rho]; cbn [run result].
  - now apply getValue_lift.
  - unfold getdValuedT, B64.getdValuedT. cbv zeta.
    apply bindS_lift; [now apply computedBarMu_dbarT_lift|].
    intros d. apply retS_lift.
  - unfold getdValuedRho, B64.getdValuedRho. cbv zeta.
    apply bindS_lift; [now apply computedBarMu_dbarRho_lift|].
    intros d. apply retS_lift.
Qed.

Lemma result_total (exp : float -> float) (c : call) :
  exists v, result exp c = Some v.
Proof.
  destruct c as [T rho|T rho|T rho]; eexists; vm_compute; reflexivity.
Qed.

(** A call returns the value of [result] and restores the memory. *)
Lemma run_restores (exp : float -> float) (c : call) (m : memory) :
  tables_ok m ->
  exists v, result exp c = Some v /\ run exp c m = Some (v, m).
Proof.
  intros Hm. destruct (result_total exp c) as [v Hv]. exists v.
  split; [exact Hv|]. rewrite run_lift by exact Hm. now rewrite Hv.
Qed.

End MemFacts.

(** * The stated properties in binary64 *)

Section Binary64.
Import PrimFloat SpecFloat FloatOps.

(** ** Where the statements fail as first stated *)



(** C3 as stated fails.  At the double [T = 134.12190397427455] and
    [rho = 322], [getValue] divides by a sum that has cancelled to [+0] and
    returns an infinity or a NaN whatever [std::exp] returns; the closed
    form is a finite number there, its divisor [f0] being about [-3e-15],
    not zero. *)
Lemma getValue_not_closed_form_at_pole :
  (0 <? B64.T_pole)%float = true /\
  Prim2SF B64.T_pole = S754_finite false 4718994974693471 (-45) /\
  B64.computeBarMu0Factor (B64.T_pole / B64._ref_T)%float = Some 0%float /\
  (forall exp : float -> float,
     exists v, B64.getValue exp B64.T_pole 322%float = Some v /\
               B64.finite v = false) /\
  -1e-14 < Spec.f0 (B64.T_pole_R / Spec.T_ref) < 0.
Proof.
  pose proof Spec_f0_at_T_pole as Hf0.
  repeat split; try (vm_compute; reflexivity); try apply Hf0.
  intros exp. eexists. split.
  - vm_compute. reflexivity.
  - apply B64Facts.finite_mul_l, B64Facts.finite_mul_l. reflexivity.
Qed.

(** C7 as stated fails: for the adjacent doubles
    [300.00000000000136 < 300.00000000000142] and [rho = 0], the value
    returned at the larger temperature is the smaller one (with
    [exp(-0) = 1], as the C standard requires). *)
Lemma getValue_decreasing_adjacent :
  (300.00000000000136 <? 300.00000000000142)%float = true /\
  forall exp : float -> float, B64.exp_spec exp ->
    exists v1 v2,
      B64.getValue exp 300.00000000000136%float 0%float = Some v1 /\
      B64.getValue exp 300.00000000000142%float 0%float = Some v2 /\
      (v2 <? v1)%float = true.
Proof.
  split; [reflexivity|]. intros exp (_ & H0 & _). do 2 eexists.
  split; [vm_compute; reflexivity|]. split; [vm_compute; reflexivity|].
  vm_compute in H0. rewrite H0. vm_compute. reflexivity.
Qed.

(** ** The sum of the dilute-gas coefficients *)

(** C5 (amended).  The four decimal coefficients sum to [4.2771914].  The
    double that [computeBarMu0Factor] returns at [barT = 1] is
    [4.2771913999999995], one unit in the last place below the double
    nearest to [4.2771914], and the dilute-gas viscosity [mu0] computed from
    it at the critical point is the double [23.379828174161204], the first
    factor of what [getValue] returns there. *)
Theorem computeBarMu0Factor_at_1 :
  fold_right Rplus 0 Hi_tab = 4.2771914 /\
  B64.computeBarMu0Factor 1%float = Some 4.2771913999999995%float /\
  Prim2SF 4.2771913999999995%float =
    S754_finite false 4815689398808072 (-50) /\
  Prim2SF 4.2771914%float = S754_finite false 4815689398808073 (-50) /\
  (100 * sqrt 1 / 4.2771913999999995)%float = 23.379828174161204%float /\
  forall exp : float -> float,
    B64.getValue exp 647.096%float 322%float =
      Some (23.379828174161204 * exp 0.52009399999999995 * B64._ref_mu)%float.
Proof.
  split; [unfold Hi_tab; simpl; lra|].
  repeat split; try (intros exp); vm_compute; reflexivity.
Qed.

(** C5 as stated fails: the sum is not [4.2771814], neither as a sum of
    decimals nor as the double that the code computes. *)
Lemma computeBarMu0Factor_at_1_not_42771814 :
  fold_right Rplus 0 Hi_tab <> 4.2771814 /\
  B64.computeBarMu0Factor 1%float <> Some 4.2771814%float /\
  (4.2771814 <? 4.2771913999999995)%float = true.
Proof.
  split; [unfold Hi_tab; simpl; lra|]. split; [|reflexivity].
  intros H.
  apply (f_equal (fun o => match o with
                           | Some x => Prim2SF x
                           | None => S754_nan
                           end)) in H.
  vm_compute in H. discriminate H.
Qed.

(** ** The series factors *)




(** ** Statelessness *)

(** C9.  The three entry points are deterministic and stateless.  On the
    explicit memory, with the tables holding their initialisers and
    whatever vectors alive, a call of an entry point returns the value [v]
    that [Mem.result] gives as a function of the arguments alone, and leaves
    the memory exactly as it found it: the tables are not written, and the
    two vectors of the call are destroyed again.  Hence the same call after
    any sequence of earlier calls returns the same [v].  ([std::exp] is
    taken as a function of its argument; the floating-point environment is
    not modelled.) *)
Theorem entry_points_stateless (exp : float -> float) (m : Mem.memory)
    (history : list Mem.call) (c : Mem.call) :
  Mem.tables_ok m ->
  exists (outs : list float) (v : float),
    Mem.result exp c = Some v /\
    Mem.run exp c m = Some (v, m) /\
    Mem.run_all exp history m = Some (outs, m) /\
    Mem.run_all exp (history ++ [c]) m = Some (outs ++ [v], m).
Proof.
  intros Hm. destruct (MemFacts.run_restores exp c m Hm) as [v [Hv Hrun]].
  induction history as [|c' cs (outs & v' & Hv' & _ & Hcs & Happ)].
  - exists [], v. repeat split; try assumption.
    cbn [app Mem.run_all]. unfold Mem.bindS. now rewrite Hrun.
  - assert (v' = v) as -> by congruence.
    destruct (MemFacts.run_restores exp c' m Hm) as [x [_ Hx]].
    exists (x :: outs), v. repeat split; try assumption.
    + cbn [Mem.run_all]. unfold Mem.bindS. now rewrite Hx, Hcs.
    + cbn [app Mem.run_all]. unfold Mem.bindS. now rewrite Hx, Happ.
Qed.

Lemma entry_points_stateless_witness :
  Mem.tables_ok Mem.initial /\
  exists (outs : list float) (v : float),
    Mem.result B64.exp_series (Mem.GetValue 300 1) = Some v /\
    Mem.run B64.exp_series (Mem.GetValue 300 1) Mem.initial =
      Some (v, Mem.initial) /\
    Mem.run_all B64.exp_series
      [Mem.GetdValuedT 647.096 322; Mem.GetdValuedRho 400 0.5] Mem.initial =
      Some (outs, Mem.initial) /\
    Mem.run_all B64.exp_series
      ([Mem.GetdValuedT 647.096 322; Mem.GetdValuedRho 400 0.5] ++
       [Mem.GetValue 300 1]) Mem.initial =
      Some (outs ++ [v], Mem.initial).
Proof.
  split; [split; reflexivity|].
  apply (entry_points_stateless B64.exp_series Mem.initial
           [Mem.GetdValuedT 647.096 322; Mem.GetdValuedRho 400 0.5]
           (Mem.GetValue 300 1)).
  split; reflexivity.
Defined.

(** ** Zero density *)

(** C10 (amended).  For every double [T] for which the residual factor [f1]
    computed by the code is finite, at zero density the exponent
    [bar_rho * f1] is a zero ([+0] or [-0]), [std::exp] of it is exactly
    [1], and [getValue T 0] is [100 * sqrt (T / 647.096) / f0 * 1 * 1e-6]
    with [f0] the dilute-gas factor computed by the code, in the arithmetic
    of doubles: the pure dilute-gas viscosity, whatever finite value the
    residual factor has. *)
Theorem getValue_zero_density (exp : float -> float) (T : float)
    (sT sRho : list float) (f0 f1 : float) :
  B64.exp_spec exp ->
  B64.computeBarMu0Factor (T / B64._ref_T)%float = Some f0 ->
  B64.computeSeriesFactorTForMu1 (T / B64._ref_T)%float = Some sT ->
  B64.computeSeriesFactorRhoForMu1 (0 / B64._ref_rho)%float = Some sRho ->
  B64.computeBarMu1Factor sT sRho = Some f1 ->
  B64.finite f1 = true ->
  ((0 / B64._ref_rho * f1 = 0)%float \/ (0 / B64._ref_rho * f1 = -0)%float) /\
  exp (0 / B64._ref_rho * f1)%float = 1%float /\
  B64.getValue exp T 0%float =
    Some (100 * sqrt (T / B64._ref_T) / f0 * 1 * B64._ref_mu)%float.
Proof.
  intros (E0 & En & _) Hf0 HsT HsRho Hf1 Hfin.
  assert (Hz : (0 / B64._ref_rho)%float = 0%float) by reflexivity.
  assert (Hexp : exp (0 / B64._ref_rho * f1)%float = 1%float).
  { rewrite Hz. destruct (B64Facts.zero_mul_finite f1 Hfin) as [-> | ->];
      assumption. }
  split; [rewrite Hz; now apply B64Facts.zero_mul_finite|].
  split; [exact Hexp|].
  unfold B64.getValue. rewrite Hf0, HsT, HsRho. cbn [bind].
  rewrite Hf1. cbn [bind]. rewrite Hexp. reflexivity.
Qed.

Lemma getValue_zero_density_witness :
  exists (sT sRho : list float) (f0 f1 : float),
    B64.exp_spec B64.exp_series /\
    B64.computeBarMu0Factor (300 / B64._ref_T)%float = Some f0 /\
    B64.computeSeriesFactorTForMu1 (300 / B64._ref_T)%float = Some sT /\
    B64.computeSeriesFactorRhoForMu1 (0 / B64._ref_rho)%float = Some sRho /\
    B64.computeBarMu1Factor sT sRho = Some f1 /\
    B64.finite f1 = true /\
    ((0 / B64._ref_rho * f1 = 0)%float \/
     (0 / B64._ref_rho * f1 = -0)%float) /\
    B64.exp_series (0 / B64._ref_rho * f1)%float = 1%float /\
    B64.getValue B64.exp_series 300%float 0%float =
      Some (100 * sqrt (300 / B64._ref_T) / f0 * 1 * B64._ref_mu)%float.
Proof.
  do 4 eexists.
  split; [exact B64Facts.exp_spec_exp_series|].
  split; [vm_compute; reflexivity|].
  split; [vm_compute; reflexivity|].
  split; [vm_compute; reflexivity|].
  split; [vm_compute; reflexivity|].
  split; [vm_compute; reflexivity|].
  eapply (getValue_zero_density B64.exp_series 300%float);
    first [exact B64Facts.exp_spec_exp_series | vm_compute; reflexivity].
Defined.

(** C10 as stated fails.  At the double [T = 1e-60] the factor
    [1 / barT - 1] is about [6e62] and its fifth power overflows: the
    residual factor is not finite, the exponent [0 * f1] is a NaN and
    [getValue T 0] is a NaN, although the dilute-gas expression on the
    right-hand side is a finite double.  At [T = 0] the result is a NaN as
    well. *)
Lemma zero_density_exponent_nan :
  (0 <? 1e-60)%float = true /\
  (exists sT sRho f1 f0,
     B64.computeSeriesFactorTForMu1 (1e-60 / B64._ref_T)%float = Some sT /\
     B64.computeSeriesFactorRhoForMu1 (0 / B64._ref_rho)%float = Some sRho /\
     B64.computeBarMu1Factor sT sRho = Some f1 /\
     B64.computeBarMu0Factor (1e-60 / B64._ref_T)%float = Some f0 /\
     (0 / B64._ref_rho * f1)%float = nan /\
     B64.finite
       (100 * sqrt (1e-60 / B64._ref_T) / f0 * B64._ref_mu)%float = true) /\
  forall exp : float -> float, B64.exp_spec exp ->
    B64.getValue exp 1e-60%float 0%float = Some nan /\
    B64.getValue exp 0%float 0%float = Some nan.
Proof.
  split; [reflexivity|]. split.
  - do 4 eexists. repeat split; vm_compute; reflexivity.
  - intros exp (_ & _ & Hn). vm_compute in Hn.
    split; vm_compute; rewrite Hn; vm_compute; reflexivity.
Qed.

(** * Further properties in binary64 *)

(** X2.  A non-finite input propagates: when [T] or [rho] is an infinity or
    a NaN, each of the three entry points returns an infinity or a NaN. *)
Theorem entry_points_propagate_non_finite (exp : float -> float)
    (T rho : float) :
  B64.exp_spec exp ->
  B64.finite T = false \/ B64.finite rho = false ->
  exists v1 v2 v3 : float,
    B64.getValue exp T rho = Some v1 /\
    B64.getdValuedT exp T rho = Some v2 /\
    B64.getdValuedRho exp T rho = Some v3 /\
    B64.finite v1 = false /\ B64.finite v2 = false /\ B64.finite v3 = false.
Proof.
  intros Hexp [HT | Hrho].
  - now apply B64Facts.non_finite_T.
  - destruct (B64Facts.non_finite_rho exp T rho Hexp Hrho) as (H1 & H2 & H3).
    exists nan, nan, nan. repeat split; assumption.
Qed.

Lemma entry_points_propagate_non_finite_witness :
  exists v1 v2 v3 : float,
    B64.getValue B64.exp_series infinity 998%float = Some v1 /\
    B64.getdValuedT B64.exp_series infinity 998%float = Some v2 /\
    B64.getdValuedRho B64.exp_series infinity 998%float = Some v3 /\
    B64.finite v1 = false /\ B64.finite v2 = false /\ B64.finite v3 = false.
Proof.
  apply (entry_points_propagate_non_finite B64.exp_series infinity 998%float).
  - exact B64Facts.exp_spec_exp_series.
  - left. reflexivity.
Defined.

(** X17.  In binary64, a temperature that is zero or negative is not
    rejected: for every double [T <= 0] (the two zeros and [-infinity]
    included), every [rho] and whatever [std::exp] returns, each of the
    three entry points returns a NaN. *)
Theorem entry_points_nan_nonpositive_T (exp : float -> float)
    (T rho : float) :
  (T <=? 0)%float = true ->
  B64.getValue exp T rho = Some nan /\
  B64.getdValuedT exp T rho = Some nan /\
  B64.getdValuedRho exp T rho = Some nan.
Proof.
  intros HT.
  destruct (B64Facts.nonpositive_T exp T rho HT) as (H1 & H2 & H3).
  repeat split; assumption.
Qed.

Lemma entry_points_nan_nonpositive_T_witness :
  B64.getValue B64.exp_series (-5)%float 998%float = Some nan /\
  B64.getdValuedT B64.exp_series (-5)%float 998%float = Some nan /\
  B64.getdValuedRho B64.exp_series (-5)%float 998%float = Some nan.
Proof.
  apply (entry_points_nan_nonpositive_T B64.exp_series (-5)%float 998%float).
  reflexivity.
Defined.

(** X16.  In binary64 too, and whatever [std::exp] returns, each of the
    three entry points returns a double for every pair of doubles: no access
    to a vector or a table is out of range. *)
Theorem entry_points_total_b64 (exp : float -> float) (T rho : float) :
  (exists v : float, B64.getValue exp T rho = Some v) /\
  (exists v : float, B64.getdValuedT exp T rho = Some v) /\
  (exists v : float, B64.getdValuedRho exp T rho = Some v).
Proof. repeat split; eexists; vm_compute; reflexivity. Qed.

(** X13.  The dilute-gas factor at the special doubles: at [+0], [-0] and
    NaN [computeBarMu0Factor] returns a NaN (the terms [H[i] / 0] are
    infinities of both signs), and at the two infinities it returns
    [H[0] = 1.67752], a finite number. *)
Theorem computeBarMu0Factor_special :
  B64.computeBarMu0Factor 0%float = Some nan /\
  B64.computeBarMu0Factor (-0)%float = Some nan /\
  B64.computeBarMu0Factor nan = Some nan /\
  B64.computeBarMu0Factor infinity = Some 1.67752%float /\
  B64.computeBarMu0Factor neg_infinity = Some 1.67752%float.
Proof. repeat split; vm_compute; reflexivity. Qed.

End Binary64.
